(** * JoystickRC4DiddyBorg: the UDP joystick server of a DiddyBorg robot

    A shallow embedding of [JoystickRC4DiddyBorg.py] and the properties of
    its frame decoding, drive computation, fault display and request loop.

    The script computes with Python floats (IEEE 754 binary64).  The
    arithmetic it uses is collected in the interface [Num]; every function
    of the script is written once over that interface and read at two
    instances: [float_Num], the binary64 numbers the interpreter computes
    with, and [Q_Num], exact rationals, where the algebraic properties of
    the control law are proved without rounding. *)

From Stdlib Require Import ZArith QArith Qabs Lqa Lia List Bool.
From Stdlib Require Import Strings.String Strings.Byte Floats.
Import ListNotations.

Set Implicit Arguments.

(** ** Arithmetic of the script *)

Declare Scope num_scope.
Delimit Scope num_scope with num.

Class Num (F : Type) : Type := {
  (** [float(n)] and the implicit conversion of an integer operand *)
  of_int : Z -> F;
  (** a decimal literal of the source text, such as [0.05] *)
  lit : Q -> F;
  add : F -> F -> F;
  sub : F -> F -> F;
  mul : F -> F -> F;
  div : F -> F -> F;
  neg : F -> F;
  (** [x < y] and [x <= y]; Python's [x > y] is [y < x] *)
  ltb : F -> F -> bool;
  leb : F -> F -> bool
}.

Arguments of_int {F _} n%_Z.
Arguments lit {F _} q%_Q.

Notation "x + y" := (add x y) : num_scope.
Notation "x - y" := (sub x y) : num_scope.
Notation "x * y" := (mul x y) : num_scope.
Notation "x / y" := (div x y) : num_scope.
Notation "- x" := (neg x) : num_scope.
Notation "x <? y" := (ltb x y) : num_scope.
Notation "x >? y" := (ltb y x) : num_scope.
Notation "x <=? y" := (leb x y) : num_scope.

(** The order facts the dead-zone reasoning needs: a number that is at
    most [y] is not above [y].  Both instances below satisfy it (for
    binary64 also at NaN, which compares false with everything). *)
Class NumOrder (F : Type) {N : Num F} : Prop := {
  leb_not_gt : forall x y : F, leb x y = true -> ltb y x = false
}.

(** *** Exact rationals *)

Definition Qltb (x y : Q) : bool := negb (Qle_bool y x).

#[export] Instance Q_Num : Num Q := {
  of_int := inject_Z;
  lit := fun q => q;
  add := Qplus;
  sub := Qminus;
  mul := Qmult;
  div := Qdiv;
  neg := Qopp;
  ltb := Qltb;
  leb := Qle_bool
}.

(** *** Binary64 *)

(** [float(n)]: the integer rounded to nearest-even (exact below 2^53). *)
Definition float_of_Z (n : Z) : float :=
  SF2Prim (binary_normalize prec emax n 0 false).

(** A decimal literal [m / 10^k]: numerator and denominator are exact in
    the literals of the script, so the correctly rounded quotient is the
    binary64 number nearest to the decimal. *)
Definition float_lit (q : Q) : float :=
  PrimFloat.div (float_of_Z (Qnum q)) (float_of_Z (Zpos (Qden q))).

#[export] Instance float_Num : Num float := {
  of_int := float_of_Z;
  lit := float_lit;
  add := PrimFloat.add;
  sub := PrimFloat.sub;
  mul := PrimFloat.mul;
  div := PrimFloat.div;
  neg := PrimFloat.opp;
  ltb := PrimFloat.ltb;
  leb := PrimFloat.leb
}.

(** ** Settings (lines 24-41) *)

Section Script.

Context {F : Type} {N : Num F}.
Local Open Scope num_scope.

Record settings : Type := {
  axisUpDown : Z;
  axisUpDownInverted : bool;
  axisLeftRight : Z;
  axisLeftRightInverted : bool;
  slowFactor : F;
  interval : F;
  voltageIn : F;
  voltageOut : F;
  switchOnMin : Z;
  buttonFastTurn : Z;
  buttonSlow : Z
}.

(** The values the script assigns; [buttonSlow] and [buttonFastTurn] are
    first set to 8 and 9 and then reassigned to 4 and 3 (lines 40-41). *)
Definition defaults : settings := {|
  axisUpDown := 1;
  axisUpDownInverted := false;
  axisLeftRight := 2;
  axisLeftRightInverted := false;
  slowFactor := lit 0.5;
  interval := lit 0.00;
  voltageIn := lit 12.0;
  voltageOut := lit 12.0 * lit 0.95;
  switchOnMin := 1750;
  buttonFastTurn := 3;
  buttonSlow := 4
|}.

(** ** Power limit (lines 79-83) *)

Definition maxPower_of (vOut vIn : F) : F :=
  if vOut >? vIn then lit 1.0 else vOut / vIn.

Definition maxPower (cfg : settings) : F :=
  maxPower_of (voltageOut cfg) (voltageIn cfg).

(** ** Drive computation (lines 143-164) *)

(** The straight-line code of the loop body between the button test of
    line 144 and the two [SetMotor] calls; each assignment to a variable
    is a [let] that shadows it.  [fastTurn] and [slow] are the results
    of [buttonPushed(buttonFastTurn)] and [buttonPushed(buttonSlow)],
    [sf] is [slowFactor] and [mp] is [maxPower].  The result is the pair
    of arguments of [TB.SetMotor1] and [TB.SetMotor2]. *)
Definition drive (sf mp : F) (leftRight upDown : F) (fastTurn slow : bool)
  : F * F :=
  let leftRight := if negb fastTurn then leftRight * lit 0.5 else leftRight in
  let driveLeft := - upDown in
  let driveRight := - upDown in
  let '(driveLeft, driveRight) :=
    if leftRight <? - lit 0.05 then
      (driveLeft * (lit 1.0 + lit 2.0 * leftRight), driveRight)
    else if leftRight >? lit 0.05 then
      (driveLeft, driveRight * (lit 1.0 - lit 2.0 * leftRight))
    else
      (driveLeft, driveRight) in
  let '(driveLeft, driveRight) :=
    if slow then (driveLeft * sf, driveRight * sf)
    else (driveLeft, driveRight) in
  (driveLeft * mp, driveRight * mp).

End Script.

Arguments settings F : clear implicits.

(** ** Frames (line 131) *)

(** [struct.unpack('xxHHHHHHHH', data)] reads in native byte order and
    alignment.  Two pad bytes put the first [H] at offset 2, which is
    already aligned, so the format is 18 bytes long on every platform;
    the byte order is the platform's and is a parameter here. *)
Inductive byteorder : Type := LittleEndian | BigEndian.

Definition byte_val (b : byte) : Z := Z.of_N (Byte.to_N b).

(** One [H] field: an unsigned 16-bit integer from two bytes. *)
Definition u16 (bo : byteorder) (b0 b1 : byte) : Z :=
  match bo with
  | LittleEndian => byte_val b0 + 256 * byte_val b1
  | BigEndian => 256 * byte_val b0 + byte_val b1
  end.

Fixpoint unpack_H (bo : byteorder) (n : nat) (buf : list byte) : list Z :=
  match n, buf with
  | S n', b0 :: b1 :: rest => u16 bo b0 b1 :: unpack_H bo n' rest
  | _, _ => []
  end.

Definition frame_size : nat := 18.

(** [None] is [struct.error]: "unpack requires a buffer of 18 bytes". *)
Definition unpack_xxHHHHHHHH (bo : byteorder) (data : list byte)
  : option (list Z) :=
  if Nat.eqb (List.length data) frame_size
  then Some (unpack_H bo 8 (skipn 2 data))
  else None.

(** Indexing a tuple: negative indices count from the end, anything else
    out of range is [IndexError] ([None]). *)
Definition getitem (t : list Z) (i : Z) : option Z :=
  let n := Z.of_nat (List.length t) in
  if ((0 <=? i) && (i <? n))%Z then nth_error t (Z.to_nat i)
  else if ((- n <=? i) && (i <? 0))%Z then nth_error t (Z.to_nat (n + i))
  else None.

(** ** Exceptions and effects *)

Inductive exn : Type := struct_error | IndexError | KeyboardInterrupt.

Record address : Type := { host : string; port : Z }.

Section Loop.

Context {F : Type} {N : Num F}.
Local Open Scope num_scope.

(** What the process does to the outside: datagrams sent, calls on the
    ThunderBorg board that change it, lines printed. *)
Inductive effect : Type :=
| SendTo (payload : list byte) (dest : address)
| SetMotor1 (power : F)
| SetMotor2 (power : F)
| MotorsOff
| SetLedShowBattery (state : bool)
| SetLeds (r g b : Z)
| SetCommsFailsafe (state : bool)
| Print (line : string).

(** A computation emits effects and then returns or raises. *)
Definition M (A : Type) : Type := list effect * (exn + A).

Definition ret {A} (a : A) : M A := ([], inr a).
Definition raise {A} (e : exn) : M A := ([], inl e).
Definition emit (e : effect) : M unit := ([e], inr tt).
Definition bind {A B} (m : M A) (k : A -> M B) : M B :=
  match m with
  | (out, inl e) => (out, inl e)
  | (out, inr a) => let '(out', r) := k a in (out ++ out', r)
  end.
Definition or_raise {A} (e : exn) (o : option A) : M A :=
  match o with Some a => ret a | None => raise e end.

Notation "x <- m ;; k" := (bind m (fun x => k))
  (at level 61, m at next level, right associativity).
Notation "m ;;; k" := (bind m (fun _ => k))
  (at level 61, right associativity).

(** ** Inputs of the channel mapping (lines 44-47 and 133-141) *)

Variable native : byteorder.
Variable cfg : settings F.

(** [buttonPushed(channelNumber)] on the frame last unpacked. *)
Definition buttonPushed (ppmFrame : list Z) (channelNumber : Z) : M bool :=
  v <- or_raise IndexError (getitem ppmFrame (channelNumber - 1)) ;;
  ret (if (v >? switchOnMin cfg)%Z then true else false).

(** Lines 134-137: the steering input, from [ppmFrame[0]]. *)
Definition read_leftRight (ppmFrame : list Z) : M F :=
  v <- or_raise IndexError (getitem ppmFrame 0) ;;
  ret (if axisLeftRightInverted cfg
       then (- of_int v + of_int 1500) / of_int 500
       else (of_int v - of_int 1500) / of_int 500).

(** Lines 138-141: the throttle input, from [ppmFrame[1]]. *)
Definition read_upDown (ppmFrame : list Z) : M F :=
  v <- or_raise IndexError (getitem ppmFrame 1) ;;
  ret (if axisUpDownInverted cfg
       then (- of_int v + of_int 1500) / of_int 500
       else (of_int v - of_int 1500) / of_int 500).

(** ** The loop (lines 102-184) *)

(** The one variable an iteration reads before it writes it.  The loop's
    other variables ([hadEvent], [ppmFrame], [leftRight], [upDown],
    [driveLeft], [driveRight]) are assigned in an iteration before they
    are read there. *)
Record state : Type := { ledBatteryMode : bool }.

(** What one iteration receives: the datagram [recvfrom] returns, with
    what the board's two fault registers would read during the iteration,
    or CTRL+C while the process waits. *)
Inductive event : Type :=
| Datagram (payload : list byte) (addr : address) (fault1 fault2 : bool)
| CtrlC.

Definition rx_port : Z := 12001.
Definition tx_port : Z := 12000.
Definition bufsize : nat := 1024.

Definition bytes_eqb (a b : list byte) : bool :=
  if list_eq_dec Byte.byte_eq_dec a b then true else false.

Definition b (s : string) : list byte := list_byte_of_string s.

(** Lines 166-175. *)
Definition showFaults (st : state) (fault1 fault2 : bool) : M state :=
  if fault1 || fault2 then
    if ledBatteryMode st then
      emit (SetLedShowBattery false) ;;;
      emit (SetLeds 1 0 1) ;;;
      ret {| ledBatteryMode := false |}
    else ret st
  else
    if negb (ledBatteryMode st) then
      emit (SetLedShowBattery true) ;;;
      ret {| ledBatteryMode := true |}
    else ret st.

(** Lines 128-175: a command frame. *)
Definition command (st : state) (data : list byte) (fault1 fault2 : bool)
  : M state :=
  ppmFrame <- or_raise struct_error (unpack_xxHHHHHHHH native data) ;;
  leftRight <- read_leftRight ppmFrame ;;
  upDown <- read_upDown ppmFrame ;;
  fastTurn <- buttonPushed ppmFrame (buttonFastTurn cfg) ;;
  slow <- buttonPushed ppmFrame (buttonSlow cfg) ;;
  let '(m1, m2) :=
    drive (slowFactor cfg) (maxPower cfg) leftRight upDown fastTurn slow in
  emit (SetMotor1 m1) ;;;
  emit (SetMotor2 m2) ;;;
  showFaults st fault1 fault2.

(** Lines 113-175: one iteration of [while running]. *)
Definition iteration (st : state) (ev : event) : M state :=
  match ev with
  | CtrlC => raise KeyboardInterrupt
  | Datagram payload addr fault1 fault2 =>
      let data := firstn bufsize payload in
      if bytes_eqb data (b "?") then
        emit (SendTo (b "T=Diddyborg")
                {| host := host addr; port := tx_port |}) ;;;
        ret st
      else if bytes_eqb data (b "0") then
        emit (SendTo (b "1.0") {| host := host addr; port := tx_port |}) ;;;
        ret st
      else command st data fault1 fault2
  end.

(** The loop over the events that arrive; when they are used up the
    process is blocked in [recvfrom] with the state returned. *)
Fixpoint loop (st : state) (evs : list event) : M state :=
  match evs with
  | [] => ret st
  | ev :: evs' => st' <- iteration st ev ;; loop st' evs'
  end.

(** How a run over finitely many events stands at their end. *)
Inductive status : Type :=
| Waiting (st : state)
| Exited
| Died (e : exn).

Definition newline : string := String (Ascii.ascii_of_nat 10) EmptyString.

(** Lines 180-184, the [finally] block. *)
Definition cleanup : list effect :=
  [MotorsOff; SetCommsFailsafe false; SetLedShowBattery false; SetLeds 0 0 0].

(** Lines 85-103, up to the loop. *)
Definition setup : list effect :=
  [MotorsOff; SetLedShowBattery false; SetLeds 0 0 1;
   SetLedShowBattery true;
   Print "Real time command interface ready ... (press CTRL+C to abort)"].

(** Lines 85-184, after the board was found and its failsafe enabled
    (lines 52-77).  The bare [print] of line 185 prints nothing. *)
Definition main (evs : list event) : list effect * status :=
  match loop {| ledBatteryMode := true |} evs with
  | (out, inr st) => (setup ++ out, Waiting st)
  | (out, inl KeyboardInterrupt) =>
      (setup ++ out ++ [Print (newline ++ "User shutdown")%string] ++ cleanup, Exited)
  | (out, inl e) => (setup ++ out ++ cleanup, Died e)
  end.

End Loop.

Arguments effect F : clear implicits.
Arguments M F A : clear implicits.

(** ** The components as the specification words them *)

Module Spec.

Section ControlLaw.

Context {F : Type} {N : Num F}.
Local Open Scope num_scope.

(** Step 1: steering is halved unless fast-turn is held. *)
Definition attenuate (fastTurn : bool) (steering : F) : F :=
  if fastTurn then steering else steering * lit 0.5.

(** Step 2: both sides start at [-throttle]. *)
Definition initial (throttle : F) : F * F := (- throttle, - throttle).

(** Step 3: the dead-zone test picks the side that is scaled. *)
Definition mixTurn (steering : F) (d : F * F) : F * F :=
  if steering <? - lit 0.05 then
    (fst d * (lit 1.0 + lit 2.0 * steering), snd d)
  else if steering >? lit 0.05 then
    (fst d, snd d * (lit 1.0 - lit 2.0 * steering))
  else d.

(** Step 4: the slow button scales both sides. *)
Definition applySlow (slow : bool) (slowFactor : F) (d : F * F) : F * F :=
  if slow then (fst d * slowFactor, snd d * slowFactor) else d.

(** Step 5: the power limit scales both sides. *)
Definition limit (maxPower : F) (d : F * F) : F * F :=
  (fst d * maxPower, snd d * maxPower).

Definition computeDrive (steering throttle : F) (fastTurn slow : bool)
    (maxPower slowFactor : F) : F * F :=
  limit maxPower
    (applySlow slow slowFactor
       (mixTurn (attenuate fastTurn steering) (initial throttle))).

(** The drive level of a side the turn mixing leaves alone:
    [-throttle], times [slowFactor] when slow, times [maxPower]. *)
Definition straight (throttle : F) (slow : bool) (maxPower slowFactor : F)
  : F :=
  (if slow then - throttle * slowFactor else - throttle) * maxPower.

(** Section 6: the power-limit ratio [min(1.0, voltageOut/voltageIn)],
    [min] returning its first argument unless the second is smaller. *)
Definition min_of (x y : F) : F := if y <? x then y else x.

Definition powerLimit (voltageOut voltageIn : F) : F :=
  min_of (lit 1.0) (voltageOut / voltageIn).

(** The steering band [-0.05 .. 0.05], ends included. *)
Definition inDeadZone (steering : F) : Prop :=
  (- lit 0.05 <=? steering) = true /\ (steering <=? lit 0.05) = true.

(** Section 4.2 with the default assignment of section 6: channel 1 is
    the throttle axis and channel 2 the steering axis, neither inverted. *)
Definition normalized (raw : Z) : F := (of_int raw - of_int 1500) / of_int 500.

Definition throttleInput (frame : list Z) : F := normalized (nth 0 frame 0%Z).
Definition steeringInput (frame : list Z) : F := normalized (nth 1 frame 0%Z).

End ControlLaw.

(** Section 4.4, the fault monitor. *)
Inductive FaultStatus : Type := Normal | Fault.

Definition differs (a c : FaultStatus) : bool :=
  match a, c with
  | Normal, Normal | Fault, Fault => false
  | _, _ => true
  end.

Definition update (fault1 fault2 : bool) (previous : FaultStatus)
  : FaultStatus * bool :=
  let current := if fault1 || fault2 then Fault else Normal in
  (current, differs current previous).

(** The transition flags of a sequence of fault-bit pairs, the caller
    threading [previous]. *)
Fixpoint updates (previous : FaultStatus) (pairs : list (bool * bool))
  : list bool :=
  match pairs with
  | [] => []
  | (fault1, fault2) :: rest =>
      let '(current, changed) := update fault1 fault2 previous in
      changed :: updates current rest
  end.

(** Modelled from the spec: the encoder of a control frame, which is the
    sender's and not part of the script.  Two header bytes, skipped by the
    decoder, then the 8 channel values as unsigned 16-bit integers in the
    frame's byte order. *)
Definition byte_of (n : Z) : byte :=
  match Byte.of_N (Z.to_N (n mod 256)) with
  | Some c => c
  | None => x00
  end.

Definition encode_u16 (bo : byteorder) (v : Z) : list byte :=
  match bo with
  | LittleEndian => [byte_of v; byte_of (v / 256)]
  | BigEndian => [byte_of (v / 256); byte_of v]
  end.

Definition encode (bo : byteorder) (h0 h1 : byte) (channels : list Z)
  : list byte :=
  h0 :: h1 :: flat_map (encode_u16 bo) channels.

End Spec.

(** ** Observations on a run *)

Section Observations.

Context {F : Type} {N : Num F}.

(** The effects of each iteration, in order, up to the one that raises. *)
Fixpoint iterations (native : byteorder) (cfg : settings F)
    (st : state) (evs : list event) : list (list (effect F)) :=
  match evs with
  | [] => []
  | ev :: evs' =>
      match iteration native cfg st ev with
      | (out, inr st') => out :: iterations native cfg st' evs'
      | (out, inl _) => [out]
      end
  end.

(** An iteration changes the LED mode when it calls [SetLedShowBattery]
    or [SetLeds]. *)
Definition led_call (e : effect F) : bool :=
  match e with
  | SetLedShowBattery _ | SetLeds _ _ _ => true
  | _ => false
  end.

(** A call that commands the motors. *)
Definition motor_call (e : effect F) : bool :=
  match e with
  | SetMotor1 _ | SetMotor2 _ | MotorsOff => true
  | _ => false
  end.

(** The fault status the loop remembers in [ledBatteryMode]. *)
Definition remembered (st : state) : Spec.FaultStatus :=
  if ledBatteryMode st then Spec.Normal else Spec.Fault.

Definition faults (ev : event) : bool * bool :=
  match ev with
  | Datagram _ _ fault1 fault2 => (fault1, fault2)
  | CtrlC => (false, false)
  end.

(** A datagram of exactly the frame size. *)
Definition is_frame (ev : event) : Prop :=
  match ev with
  | Datagram payload _ _ _ => List.length payload = frame_size
  | CtrlC => False
  end.

(** A button channel that names one of the 8 channels. *)
Definition channel_ok (c : Z) : Prop := (1 <= c <= 8)%Z.

(** The 8 channel values of an 18-byte datagram. *)
Definition channels (native : byteorder) (data : list byte) : list Z :=
  unpack_H native 8 (skipn 2 data).

(** Channel [c], counted from 1 as [buttonPushed] counts. *)
Definition channel (ppmFrame : list Z) (c : Z) : Z :=
  nth (Z.to_nat (c - 1)) ppmFrame 0%Z.

(** An axis position from a channel value (lines 134-141). *)
Definition axis (inverted : bool) (raw : Z) : F :=
  if inverted
  then ((- of_int raw + of_int 1500) / of_int 500)%num
  else ((of_int raw - of_int 1500) / of_int 500)%num.

(** The settings with other axis numbers. *)
Definition with_axes (upDown leftRight : Z) (cfg : settings F) : settings F :=
  {| axisUpDown := upDown;
     axisUpDownInverted := axisUpDownInverted cfg;
     axisLeftRight := leftRight;
     axisLeftRightInverted := axisLeftRightInverted cfg;
     slowFactor := slowFactor cfg;
     interval := interval cfg;
     voltageIn := voltageIn cfg;
     voltageOut := voltageOut cfg;
     switchOnMin := switchOnMin cfg;
     buttonFastTurn := buttonFastTurn cfg;
     buttonSlow := buttonSlow cfg |}.

(** One of the two requests that are answered with a fixed string. *)
Definition is_query (data : list byte) : Prop :=
  data = b "?" \/ data = b "0".

(** The motor commands of a command frame. *)
Definition motors (native : byteorder) (cfg : settings F) (data : list byte)
  : F * F :=
  let ppmFrame := channels native data in
  drive (slowFactor cfg) (maxPower cfg)
    (axis (axisLeftRightInverted cfg) (channel ppmFrame 1))
    (axis (axisUpDownInverted cfg) (channel ppmFrame 2))
    (if (channel ppmFrame (buttonFastTurn cfg) >? switchOnMin cfg)%Z
     then true else false)
    (if (channel ppmFrame (buttonSlow cfg) >? switchOnMin cfg)%Z
     then true else false).

End Observations.

(** ** Sample inputs *)

Definition sender : address := {| host := "192.168.0.10"; port := 50000 |}.

(** A frame as a little-endian sender builds it, header bytes zero. *)
Definition frame_of (channels : list Z) : list byte :=
  Spec.encode LittleEndian x00 x00 channels.

(** Channel 1 at 1000, channel 2 centred, no button held. *)
Definition channel1_low : list byte :=
  frame_of [1000; 1500; 1000; 1000; 1500; 1500; 1500; 1500]%Z.

(** Channel 2 at 1000, channel 1 centred, no button held. *)
Definition channel2_low : list byte :=
  frame_of [1500; 1000; 1000; 1000; 1500; 1500; 1500; 1500]%Z.

(** ** The start of the script (lines 52-77) *)

(** How the script can end before the loop.  Line 57 calls
    [ThunderBorg.ScanForThunderBorg()], but the module is imported under
    the name [ThunderBorg3] and nothing binds [ThunderBorg]: the line
    raises [NameError], and lines 58-66 are never reached.  [sys.exit()]
    of line 77 raises [SystemExit]; it is outside the [try] statement, so
    the [finally] block does not run. *)
Inductive start_exn : Type := NameError | SystemExit.

Section Start.

Context {F : Type} {N : Num F}.

(** A call of the whole script: [TB.Init()], or an effect as above. *)
Inductive call : Type :=
| Init
| Effect (e : effect F).

(** Lines 69-77, [for i in range(n)]: [reads k] is what the k-th call of
    [TB.GetCommsFailsafe()] from here on returns.  The result is the
    variable [failsafe] after the loop. *)
Fixpoint ensure_failsafe (n : nat) (reads : nat -> bool) (failsafe : bool)
  : list (effect F) * (start_exn + bool) :=
  match n with
  | O => ([], inr failsafe)
  | S n' =>
      let failsafe := reads O in
      if failsafe then
        ([SetCommsFailsafe true], inr failsafe)
      else if negb failsafe then
        ([SetCommsFailsafe true;
          Print "Board %02X failed to report in failsafe mode!' % (TB.i2cAddress)"],
         inl SystemExit)
      else
        let '(out, r) :=
          ensure_failsafe n' (fun k => reads (S k)) failsafe in
        (SetCommsFailsafe true :: out, r)
  end.

(** Lines 52-184: [foundChip] is [TB.foundChip] after [TB.Init()]. *)
Definition script (native : byteorder) (cfg : settings F)
    (foundChip : bool) (reads : nat -> bool) (evs : list event)
  : list call * (start_exn + status) :=
  if negb foundChip then ([Init], inl NameError)
  else
    match ensure_failsafe 5 reads false with
    | (out, inl e) => (Init :: map Effect out, inl e)
    | (out, inr _) =>
        let '(trace, s) := main native cfg evs in
        (Init :: map Effect (out ++ trace), inr s)
    end.

(** A call of the script that commands the motors. *)
Definition motor_command (c : call) : bool :=
  match c with
  | Init => false
  | Effect e => motor_call e
  end.

(** A call that asks the board to enable its failsafe. *)
Definition failsafe_request (c : call) : bool :=
  match c with
  | Effect (SetCommsFailsafe true) => true
  | _ => false
  end.

(** ** More observations on a run *)

(** The run is over. *)
Definition terminated (s : status) : bool :=
  match s with
  | Waiting _ => false
  | Exited | Died _ => true
  end.

(** What follows the loop's effects in the trace of a run. *)
Definition ending (s : status) : list (effect F) :=
  match s with
  | Waiting _ => []
  | Exited => [Print (newline ++ "User shutdown")%string] ++ cleanup
  | Died _ => cleanup
  end.

(** The effects an iteration of the loop can have: a reply, a motor
    level, or one of the two LED changes. *)
Definition loop_effect (e : effect F) : bool :=
  match e with
  | SendTo _ _ | SetMotor1 _ | SetMotor2 _ | SetLedShowBattery _ => true
  | SetLeds r g b' => ((r =? 1) && (g =? 0) && (b' =? 1))%Z
  | MotorsOff | SetCommsFailsafe _ | Print _ => false
  end.

(** A datagram sent is one of the two replies, to the transmit port. *)
Definition reply (e : effect F) : Prop :=
  match e with
  | SendTo payload dest =>
      port dest = tx_port /\ (payload = b "T=Diddyborg" \/ payload = b "1.0")
  | _ => True
  end.

(** The LED calls of [n] changes of the LED mode, from the mode given:
    out of battery mode with [SetLedShowBattery(False)] and
    [SetLeds(1,0,1)], back into it with [SetLedShowBattery(True)]. *)
Fixpoint led_cycle (battery : bool) (n : nat) : list (effect F) :=
  match n with
  | O => []
  | S n' =>
      if battery
      then SetLedShowBattery false :: SetLeds 1 0 1 :: led_cycle false n'
      else SetLedShowBattery true :: led_cycle true n'
  end.

(** A button channel number that [buttonPushed] can index with on a
    frame of 8 values: 1 to 8, or 0 down to -7, which count from the end. *)
Definition indexable (c : Z) : Prop := (-7 <= c <= 8)%Z.

End Start.

(** An event that ends the run: CTRL+C, or a datagram that is neither of
    the two requests and not 18 bytes long as [recvfrom] returns it. *)
Definition fatal (ev : event) : bool :=
  match ev with
  | CtrlC => true
  | Datagram payload _ _ _ =>
      let data := firstn bufsize payload in
      negb (bytes_eqb data (b "?")) && negb (bytes_eqb data (b "0"))
      && negb (Nat.eqb (List.length data) frame_size)
  end.

(** ** Exhaustive checks in binary64 *)

(** The integers [lo], [lo + 1], ..., [n] of them. *)
Fixpoint Zrange (lo : Z) (n : nat) : list Z :=
  match n with
  | O => []
  | S n' => lo :: Zrange (lo + 1) n'
  end.

(** Both motor levels compare equal to 0.0. *)
Definition at_rest (d : float * float) : bool :=
  PrimFloat.eqb (fst d) 0%float && PrimFloat.eqb (snd d) 0%float.

(** Both motor levels are at most [mp] in magnitude. *)
Definition within (mp : float) (d : float * float) : bool :=
  PrimFloat.leb (abs (fst d)) mp && PrimFloat.leb (abs (snd d)) mp.

(** [drive] in binary64 at the default [slowFactor] and [maxPower], each
    literal written as the binary64 number it denotes; [drive_drive64]
    below shows it is [drive]. *)
Definition drive64 (leftRight upDown : float) (fastTurn slow : bool)
  : float * float :=
  let leftRight :=
    if negb fastTurn then (leftRight * 0x1p-1)%float else leftRight in
  let driveLeft := (- upDown)%float in
  let driveRight := (- upDown)%float in
  let '(driveLeft, driveRight) :=
    if (leftRight <? - 0x1.999999999999ap-5)%float then
      ((driveLeft * (0x1p+0 + 0x1p+1 * leftRight))%float, driveRight)
    else if (0x1.999999999999ap-5 <? leftRight)%float then
      (driveLeft, (driveRight * (0x1p+0 - 0x1p+1 * leftRight))%float)
    else
      (driveLeft, driveRight) in
  let '(driveLeft, driveRight) :=
    if slow then ((driveLeft * 0x1p-1)%float, (driveRight * 0x1p-1)%float)
    else (driveLeft, driveRight) in
  ((driveLeft * 0x1.e666666666665p-1)%float,
   (driveRight * 0x1.e666666666665p-1)%float).

(** An axis that is not inverted, in binary64. *)
Definition axis64 (v : Z) : float :=
  ((float_of_Z v - 0x1.77p+10) / 0x1.f4p+8)%float.

(** A property of the motor levels, at the four states of the two
    buttons. *)
Definition all_buttons (p : float * float -> bool) (s t : float) : bool :=
  p (drive64 s t false false) && p (drive64 s t false true)
  && p (drive64 s t true false) && p (drive64 s t true true).

(** The axis positions of the channel values 1000 to 2000. *)
Definition axes64 : list float :=
  map axis64 (Zrange 1000 (Z.to_nat 1001)).

(** The settings as lines 29 and 31 first assign the two buttons. *)
Definition first_assigned : settings float := {|
  axisUpDown := 1;
  axisUpDownInverted := false;
  axisLeftRight := 2;
  axisLeftRightInverted := false;
  slowFactor := lit 0.5;
  interval := lit 0.00;
  voltageIn := lit 12.0;
  voltageOut := (lit 12.0 * lit 0.95)%num;
  switchOnMin := 1750;
  buttonFastTurn := 9;
  buttonSlow := 8
|}.

(** * Properties *)

(** ** The order of the two number systems *)

Lemma SFcompare_swap (x y : spec_float) :
  SFcompare y x = option_map CompOpp (SFcompare x y).
Proof.
  destruct x as [sx | sx | | sx mx ex], y as [sy | sy | | sy my ey];
    cbn [SFcompare option_map]; try reflexivity;
    try (destruct sx; reflexivity); try (destruct sy; reflexivity);
    try (destruct sx, sy; reflexivity).
  f_equal.
  rewrite (Z.compare_antisym ex ey).
  destruct sx, sy; cbn [CompOpp]; try reflexivity;
    destruct (ex ?= ey)%Z eqn:E; cbn [CompOpp]; try reflexivity;
    fold (Pos.compare my mx); fold (Pos.compare mx my);
    rewrite (Pos.compare_antisym mx my);
    destruct (mx ?= my)%positive; reflexivity.
Qed.

#[export] Instance float_NumOrder : NumOrder (N := float_Num).
Proof.
  constructor. intros x y. cbn [leb ltb float_Num].
  rewrite leb_spec, ltb_spec. unfold SFleb, SFltb.
  rewrite (SFcompare_swap (Prim2SF x) (Prim2SF y)).
  destruct (SFcompare (Prim2SF x) (Prim2SF y)) as [[ | | ] | ];
    cbn [option_map CompOpp]; congruence.
Qed.

#[export] Instance Q_NumOrder : NumOrder (N := Q_Num).
Proof.
  constructor. intros x y H. cbn [leb ltb Q_Num] in *.
  unfold Qltb. now rewrite H.
Qed.

Lemma Qltb_lt (x y : Q) : Qltb x y = true <-> x < y.
Proof.
  unfold Qltb. rewrite negb_true_iff, <- not_true_iff_false, Qle_bool_iff.
  split; [apply Qnot_le_lt | apply Qlt_not_le].
Qed.

Lemma Qltb_ge (x y : Q) : Qltb x y = false <-> y <= x.
Proof.
  unfold Qltb. rewrite negb_false_iff. apply Qle_bool_iff.
Qed.

(** Two binary64 numbers that compare differently against 0 differ. *)
Lemma float_neq_by (f : float -> bool) (x y : float) :
  f x <> f y -> x <> y.
Proof. intros H E. apply H. now rewrite E. Qed.

(** The decimal literals of the script as binary64 numbers. *)
Lemma float_literals :
  lit (F:=float) 0.05 = 0x1.999999999999ap-5%float
  /\ lit (F:=float) 0.5 = 0x1p-1%float
  /\ lit (F:=float) 0.95 = 0x1.e666666666666p-1%float
  /\ lit (F:=float) 1.0 = 0x1p+0%float
  /\ lit (F:=float) 2.0 = 0x1p+1%float
  /\ lit (F:=float) 12.0 = 0x1.8p+3%float.
Proof. repeat split; vm_compute; reflexivity. Qed.

(** In exact arithmetic the straight command is the product
    [-throttle * (slowFactor if slow else 1) * maxPower]. *)
Lemma straight_product (t sf mp : Q) (slow : bool) :
  (Spec.straight t slow mp sf == - t * (if slow then sf else 1) * mp)%Q.
Proof. unfold Spec.straight. cbn [neg mul Q_Num]. destruct slow; ring. Qed.

(** ** The drive computation *)

Section DriveFacts.

Context {F : Type} {N : Num F}.
Local Open Scope num_scope.

(** C1: the drive computation of the loop is the five steps of the
    control law in their order: attenuate the steering unless fast-turn is
    held, start both sides at [-throttle], scale the left side below the
    dead zone or the right side above it, scale both by [slowFactor] when
    slow, scale both by [maxPower]. *)
Theorem drive_follows_control_law
    (s t : F) (fastTurn slow : bool) (maxPower slowFactor : F) :
  drive slowFactor maxPower s t fastTurn slow
  = Spec.computeDrive s t fastTurn slow maxPower slowFactor.
Proof.
  unfold drive, Spec.computeDrive, Spec.limit, Spec.applySlow, Spec.mixTurn,
    Spec.attenuate, Spec.initial.
  destruct fastTurn; cbn [negb fst snd];
    match goal with
    | |- context [ltb ?a (neg (lit ?q))] =>
        destruct (ltb a (neg (lit q)));
        [ | match goal with
            | |- context [ltb (lit ?q') ?a'] => destruct (ltb (lit q') a')
            end ]
    end;
    destruct slow; reflexivity.
Qed.

(** In the dead zone neither test of lines 150 and 153 fires. *)
Lemma dead_zone_tests {O : NumOrder (N:=N)} (s : F) :
  Spec.inDeadZone s ->
  (s <? - lit 0.05) = false /\ (s >? lit 0.05) = false.
Proof.
  intros [Hlo Hhi]. split; now apply leb_not_gt.
Qed.

(** The drive computation by cases on the two tests, the steering being
    the attenuated one. *)
Lemma drive_cases (sf mp s t : F) (fastTurn slow : bool) :
  let s' := Spec.attenuate fastTurn s in
  drive sf mp s t fastTurn slow =
    if s' <? - lit 0.05 then
      ((if slow then - t * (lit 1.0 + lit 2.0 * s') * sf
        else - t * (lit 1.0 + lit 2.0 * s')) * mp,
       Spec.straight t slow mp sf)
    else if s' >? lit 0.05 then
      (Spec.straight t slow mp sf,
       (if slow then - t * (lit 1.0 - lit 2.0 * s') * sf
        else - t * (lit 1.0 - lit 2.0 * s')) * mp)
    else (Spec.straight t slow mp sf, Spec.straight t slow mp sf).
Proof.
  unfold drive, Spec.attenuate, Spec.straight.
  destruct fastTurn; cbn [negb];
    match goal with
    | |- context [ltb ?a (neg (lit ?q))] =>
        destruct (ltb a (neg (lit q)));
        [ | match goal with
            | |- context [ltb (lit ?q') ?a'] => destruct (ltb (lit q') a')
            end ]
    end;
    destruct slow; reflexivity.
Qed.

(** C4: with the attenuated steering in [-0.05, 0.05] both sides get the
    same command, [-throttle] times [slowFactor] when slow times
    [maxPower]. *)
Theorem dead_zone_symmetric {O : NumOrder (N:=N)}
    (s t : F) (fastTurn slow : bool) (maxPower slowFactor : F) :
  Spec.inDeadZone (Spec.attenuate fastTurn s) ->
  drive slowFactor maxPower s t fastTurn slow
  = (Spec.straight t slow maxPower slowFactor,
     Spec.straight t slow maxPower slowFactor).
Proof.
  intros H. destruct (dead_zone_tests H) as [Hlo Hhi].
  rewrite drive_cases. cbv zeta. now rewrite Hlo, Hhi.
Qed.

(** C10: the turn mixing scales at most one side, so one of the two
    commands is always the straight one; below the dead zone the right
    command is the straight one and the left is scaled by [1 + 2s], above
    it the left is the straight one and the right is scaled by [1 - 2s]. *)
Theorem one_side_straight
    (s t : F) (fastTurn slow : bool) (maxPower slowFactor : F) :
  let s' := Spec.attenuate fastTurn s in
  let d := drive slowFactor maxPower s t fastTurn slow in
  let scaled k :=
    (if slow then - t * k * slowFactor else - t * k) * maxPower in
  (fst d = Spec.straight t slow maxPower slowFactor
   \/ snd d = Spec.straight t slow maxPower slowFactor)
  /\ ((s' <? - lit 0.05) = true ->
      snd d = Spec.straight t slow maxPower slowFactor
      /\ fst d = scaled (lit 1.0 + lit 2.0 * s'))
  /\ ((s' <? - lit 0.05) = false -> (s' >? lit 0.05) = true ->
      fst d = Spec.straight t slow maxPower slowFactor
      /\ snd d = scaled (lit 1.0 - lit 2.0 * s')).
Proof.
  cbv zeta. rewrite drive_cases. cbv zeta.
  destruct (ltb (Spec.attenuate fastTurn s) (neg (lit 0.05))) eqn:Hlo;
    [ | destruct (ltb (lit 0.05) (Spec.attenuate fastTurn s)) eqn:Hhi ];
    cbn [fst snd]; repeat split; auto; intros; try discriminate.
Qed.

End DriveFacts.

(** ** Frames *)

Lemma unpack_H_length (bo : byteorder) (n : nat) :
  forall buf, List.length buf = (2 * n)%nat ->
  List.length (unpack_H bo n buf) = n.
Proof.
  induction n as [ | n IH]; intros buf Hlen; [reflexivity | ].
  destruct buf as [ | b0 [ | b1 rest]]; cbn [List.length] in Hlen; try lia.
  cbn [unpack_H List.length]. f_equal. apply IH. lia.
Qed.

Lemma unpack_frame (bo : byteorder) (data : list byte) :
  List.length data = frame_size ->
  unpack_xxHHHHHHHH bo data = Some (channels bo data)
  /\ List.length (channels bo data) = 8%nat.
Proof.
  intros Hlen. unfold unpack_xxHHHHHHHH. rewrite Hlen. split; [reflexivity | ].
  apply unpack_H_length. rewrite length_skipn, Hlen. reflexivity.
Qed.

Lemma unpack_other (bo : byteorder) (data : list byte) :
  List.length data <> frame_size -> unpack_xxHHHHHHHH bo data = None.
Proof.
  intros Hlen. unfold unpack_xxHHHHHHHH.
  destruct (Nat.eqb_spec (List.length data) frame_size); congruence.
Qed.

Lemma getitem_channel (ppmFrame : list Z) (c : Z) :
  (1 <= c <= Z.of_nat (List.length ppmFrame))%Z ->
  getitem ppmFrame (c - 1) = Some (channel ppmFrame c).
Proof.
  intros Hc. unfold getitem, channel.
  replace ((0 <=? c - 1) && (c - 1 <? Z.of_nat (List.length ppmFrame)))%Z
    with true by (symmetry; apply andb_true_iff; split; lia).
  apply nth_error_nth'. lia.
Qed.

Lemma byte_val_range (c : byte) : (0 <= byte_val c < 256)%Z.
Proof.
  unfold byte_val. pose proof (Byte.to_N_bounded c) as H. lia.
Qed.

(** Every decoded channel value is an unsigned 16-bit integer. *)
Lemma unpack_H_range (bo : byteorder) (n : nat) :
  forall buf, Forall (fun v => 0 <= v < 65536)%Z (unpack_H bo n buf).
Proof.
  induction n as [ | n IH]; intros buf; [constructor | ].
  destruct buf as [ | b0 [ | b1 rest]]; cbn [unpack_H]; try constructor;
    [ | apply IH].
  pose proof (byte_val_range b0). pose proof (byte_val_range b1).
  destruct bo; cbn [u16]; lia.
Qed.

Lemma byte_val_of (n : Z) : byte_val (Spec.byte_of n) = (n mod 256)%Z.
Proof.
  unfold byte_val, Spec.byte_of.
  assert (Hr : (0 <= n mod 256 < 256)%Z) by (apply Z.mod_pos_bound; lia).
  destruct (Byte.of_N (Z.to_N (n mod 256))) as [c | ] eqn:E.
  - apply Byte.to_of_N in E. rewrite E. lia.
  - apply Byte.of_N_None_iff in E. lia.
Qed.

Lemma u16_encode (bo : byteorder) (v : Z) (rest : list byte) (n : nat) :
  (0 <= v < 65536)%Z ->
  unpack_H bo (S n) (Spec.encode_u16 bo v ++ rest) = v :: unpack_H bo n rest.
Proof.
  intros Hv.
  assert (Hq : (0 <= v / 256 < 256)%Z)
    by (split; [apply Z.div_pos | apply Z.div_lt_upper_bound]; lia).
  destruct bo; cbn [Spec.encode_u16 app unpack_H u16];
    rewrite !byte_val_of, (Z.mod_small (v / 256)) by lia; f_equal;
    pose proof (Z.div_mod v 256); lia.
Qed.

Lemma unpack_H_encode (bo : byteorder) (vs : list Z) :
  Forall (fun v => 0 <= v < 65536)%Z vs ->
  unpack_H bo (List.length vs) (flat_map (Spec.encode_u16 bo) vs) = vs.
Proof.
  induction 1 as [ | v vs Hv _ IH]; [reflexivity | ].
  cbn [flat_map List.length]. rewrite u16_encode by exact Hv. now rewrite IH.
Qed.

Lemma encode_length (bo : byteorder) (h0 h1 : byte) (vs : list Z) :
  List.length (Spec.encode bo h0 h1 vs) = (2 + 2 * List.length vs)%nat.
Proof.
  assert (H : List.length (flat_map (Spec.encode_u16 bo) vs)
              = (2 * List.length vs)%nat).
  { induction vs as [ | v vs IH]; [reflexivity | ].
    cbn [flat_map]. rewrite length_app, IH.
    destruct bo; cbn [Spec.encode_u16 List.length]; lia. }
  unfold Spec.encode. cbn [List.length]. rewrite H. lia.
Qed.

(** C8: a frame encoded from 8 unsigned 16-bit channel values, after any
    two header bytes and in the byte order the decoder reads, decodes to
    exactly those 8 values. *)
Theorem unpack_encode (bo : byteorder) (h0 h1 : byte) (vs : list Z) :
  List.length vs = 8%nat ->
  Forall (fun v => 0 <= v < 65536)%Z vs ->
  List.length (Spec.encode bo h0 h1 vs) = frame_size
  /\ unpack_xxHHHHHHHH bo (Spec.encode bo h0 h1 vs) = Some vs.
Proof.
  intros Hlen Hvs.
  assert (Hsize : List.length (Spec.encode bo h0 h1 vs) = frame_size)
    by (rewrite encode_length, Hlen; reflexivity).
  split; [exact Hsize | ].
  destruct (@unpack_frame bo _ Hsize) as [-> _]. f_equal.
  unfold channels, Spec.encode. cbn [skipn].
  rewrite <- Hlen. now apply unpack_H_encode.
Qed.

Lemma unpack_encode_witness :
  let vs := [1000; 1500; 2000; 1000; 1500; 1500; 0; 65535]%Z in
  unpack_xxHHHHHHHH LittleEndian (Spec.encode LittleEndian x00 x00 vs)
  = Some vs.
Proof.
  cbv zeta.
  refine (proj2 (@unpack_encode LittleEndian x00 x00
                   [1000; 1500; 2000; 1000; 1500; 1500; 0; 65535]%Z _ _)).
  - reflexivity.
  - repeat constructor; lia.
Defined.

(** ** The loop *)

Section LoopFacts.

Context {F : Type} {N : Num F}.
Variable native : byteorder.
Variable cfg : settings F.

Lemma bind_ret {A B} (a : A) (k : A -> M F B) : bind (ret a) k = k a.
Proof. unfold bind, ret. destruct (k a). reflexivity. Qed.

Lemma bind_raise {A B} (e : exn) (k : A -> M F B) :
  bind (raise e) k = raise e.
Proof. reflexivity. Qed.

Lemma bind_emit {B} (e : effect F) (k : unit -> M F B) :
  bind (emit e) k = (e :: fst (k tt), snd (k tt)).
Proof. unfold bind, emit. destruct (k tt). reflexivity. Qed.

Lemma read_leftRight_channel (ppmFrame : list Z) :
  List.length ppmFrame = 8%nat ->
  read_leftRight cfg ppmFrame
  = ret (axis (axisLeftRightInverted cfg) (channel ppmFrame 1)).
Proof.
  intros Hlen. unfold read_leftRight.
  change (getitem ppmFrame 0) with (getitem ppmFrame (1 - 1)).
  rewrite getitem_channel by (rewrite Hlen; lia).
  cbn [or_raise]. now rewrite bind_ret.
Qed.

Lemma read_upDown_channel (ppmFrame : list Z) :
  List.length ppmFrame = 8%nat ->
  read_upDown cfg ppmFrame
  = ret (axis (axisUpDownInverted cfg) (channel ppmFrame 2)).
Proof.
  intros Hlen. unfold read_upDown.
  change (getitem ppmFrame 1) with (getitem ppmFrame (2 - 1)).
  rewrite getitem_channel by (rewrite Hlen; lia).
  cbn [or_raise]. now rewrite bind_ret.
Qed.

Lemma buttonPushed_channel (ppmFrame : list Z) (c : Z) :
  List.length ppmFrame = 8%nat -> channel_ok c ->
  buttonPushed cfg ppmFrame c
  = ret (if (channel ppmFrame c >? switchOnMin cfg)%Z then true else false).
Proof.
  intros Hlen Hc. unfold buttonPushed, channel_ok in *.
  rewrite getitem_channel by (rewrite Hlen; lia).
  cbn [or_raise]. now rewrite bind_ret.
Qed.

(** A command frame sets both motors and then shows the faults. *)
Lemma command_frame (st : state) (data : list byte) (fault1 fault2 : bool) :
  List.length data = frame_size ->
  channel_ok (buttonFastTurn cfg) -> channel_ok (buttonSlow cfg) ->
  command native cfg st data fault1 fault2
  = (SetMotor1 (fst (motors native cfg data))
       :: SetMotor2 (snd (motors native cfg data))
       :: fst (showFaults (F:=F) st fault1 fault2),
     snd (showFaults (F:=F) st fault1 fault2)).
Proof.
  intros Hlen Hft Hslow.
  destruct (@unpack_frame native _ Hlen) as [Hun Hch].
  unfold command. rewrite Hun. cbn [or_raise]. rewrite bind_ret.
  rewrite (read_leftRight_channel _ Hch), bind_ret.
  rewrite (read_upDown_channel _ Hch), bind_ret.
  rewrite (buttonPushed_channel _ Hch Hft), bind_ret.
  rewrite (buttonPushed_channel _ Hch Hslow), bind_ret.
  fold (motors native cfg data).
  destruct (motors native cfg data) as [m1 m2].
  rewrite !bind_emit. reflexivity.
Qed.

(** A datagram that is neither request and not 18 bytes long raises
    [struct.error] before any effect. *)
Lemma command_other (st : state) (data : list byte) (fault1 fault2 : bool) :
  List.length data <> frame_size ->
  command native cfg st data fault1 fault2 = raise struct_error.
Proof.
  intros Hlen. unfold command. now rewrite (@unpack_other native data Hlen).
Qed.

Lemma bytes_eqb_eq (x y : list byte) : bytes_eqb x y = true <-> x = y.
Proof.
  unfold bytes_eqb. destruct (list_eq_dec byte_eq_dec x y); split;
    congruence.
Qed.

Lemma firstn_bufsize (payload : list byte) :
  (List.length payload <= bufsize)%nat -> firstn bufsize payload = payload.
Proof. apply firstn_all2. Qed.

Lemma iteration_frame (st : state) (payload : list byte) (addr : address)
    (fault1 fault2 : bool) :
  List.length payload = frame_size ->
  iteration native cfg st (Datagram payload addr fault1 fault2)
  = command native cfg st payload fault1 fault2.
Proof.
  intros Hlen. cbn [iteration].
  rewrite firstn_bufsize by (rewrite Hlen; unfold frame_size, bufsize; lia).
  destruct (bytes_eqb payload (b "?")) eqn:E1;
    [apply bytes_eqb_eq in E1; subst; discriminate | ].
  destruct (bytes_eqb payload (b "0")) eqn:E2;
    [apply bytes_eqb_eq in E2; subst; discriminate | ].
  reflexivity.
Qed.

Lemma showFaults_remembered (st : state) (fault1 fault2 : bool) :
  let '(current, changed) := Spec.update fault1 fault2 (remembered st) in
  remembered match snd (showFaults (F:=F) st fault1 fault2) with
             | inr st' => st'
             | inl _ => st
             end = current
  /\ existsb led_call (fst (showFaults (F:=F) st fault1 fault2)) = changed
  /\ exists st', snd (showFaults (F:=F) st fault1 fault2) = inr st'.
Proof.
  destruct st as [[ | ]]; unfold showFaults, Spec.update, remembered;
    destruct (fault1 || fault2); cbn; eauto.
Qed.

End LoopFacts.

Section LoopClaims.

Context {F : Type} {N : Num F}.
Variable native : byteorder.
Variable cfg : settings F.

Lemma loop_app (st : state) (pre evs : list event) :
  loop native cfg st (pre ++ evs)
  = bind (loop native cfg st pre) (fun st' => loop native cfg st' evs).
Proof.
  revert st. induction pre as [ | ev pre IH]; intros st; cbn [app loop].
  - now rewrite bind_ret.
  - destruct (iteration native cfg st ev) as [out [e | st']]; cbn [bind].
    + reflexivity.
    + rewrite IH.
      destruct (loop native cfg st' pre) as [out1 [e | st1]]; cbn [bind].
      * reflexivity.
      * destruct (loop native cfg st1 evs) as [out2 r].
        now rewrite app_assoc.
Qed.

Lemma not_query_data (payload : list byte) :
  ~ is_query payload -> List.length payload <> frame_size ->
  let data := firstn bufsize payload in
  bytes_eqb data (b "?") = false /\ bytes_eqb data (b "0") = false
  /\ List.length data <> frame_size.
Proof.
  intros Hq Hlen data.
  destruct (Nat.le_gt_cases (List.length payload) bufsize) as [Hle | Hgt].
  - subst data. rewrite firstn_bufsize by exact Hle.
    repeat split; [ | | exact Hlen];
      apply not_true_iff_false; rewrite bytes_eqb_eq; intros E;
      apply Hq; [left | right]; exact E.
  - assert (Hd : List.length data = bufsize)
      by (subst data; rewrite length_firstn; lia).
    repeat split;
      [ apply not_true_iff_false; rewrite bytes_eqb_eq; intros E
      | apply not_true_iff_false; rewrite bytes_eqb_eq; intros E
      | rewrite Hd; discriminate ];
      rewrite E in Hd; discriminate.
Qed.

(** C3 (as the script has it): a datagram that is neither request and
    not 18 bytes long fails to decode with [struct.error]; nothing
    catches it, so the iteration raises before any effect, the events
    after it are never processed, and the run ends in the [finally]
    block with the exception. *)
Theorem wrong_length_ends_loop (st : state) (payload : list byte)
    (addr : address) (fault1 fault2 : bool) (rest : list event) :
  ~ is_query payload -> List.length payload <> frame_size ->
  let ev := Datagram payload addr fault1 fault2 in
  unpack_xxHHHHHHHH native (firstn bufsize payload) = None
  /\ iteration native cfg st ev = raise struct_error
  /\ loop native cfg st (ev :: rest) = raise struct_error
  /\ forall (pre : list event) (out : list (effect F)) (st' : state),
       loop native cfg {| ledBatteryMode := true |} pre = (out, inr st') ->
       main native cfg (pre ++ ev :: rest)
       = (setup ++ out ++ cleanup, Died struct_error).
Proof.
  intros Hq Hlen ev.
  destruct (not_query_data Hq Hlen) as (E1 & E2 & Hd).
  assert (Hit : forall s, iteration native cfg s ev = raise struct_error).
  { intros s. cbn [iteration ev]. rewrite E1, E2.
    now apply command_other. }
  repeat split.
  - now apply unpack_other.
  - apply Hit.
  - cbn [loop]. now rewrite Hit.
  - intros pre out st' Hpre. unfold main.
    rewrite loop_app, Hpre. cbn [bind loop]. rewrite Hit. cbn [bind raise].
    now rewrite app_nil_r.
Qed.

(** C9: the two one-byte requests are answered with their fixed string,
    sent to the sender's host on the transmit port, and nothing else
    happens: no motor call, and the loop's state is as before. *)
Theorem query_only_replies (st : state) (addr : address)
    (fault1 fault2 : bool) :
  let dest := {| host := host addr; port := tx_port |} in
  iteration native cfg st (Datagram (b "?") addr fault1 fault2)
  = ([SendTo (b "T=Diddyborg") dest], inr st)
  /\ iteration native cfg st (Datagram (b "0") addr fault1 fault2)
     = ([SendTo (b "1.0") dest], inr st)
  /\ forall payload : list byte, is_query payload ->
       let r := iteration native cfg st
                  (Datagram payload addr fault1 fault2) in
       existsb motor_call (fst r) = false /\ snd r = inr st.
Proof.
  cbv zeta.
  assert (H1 : iteration native cfg st (Datagram (b "?") addr fault1 fault2)
               = ([SendTo (b "T=Diddyborg")
                     {| host := host addr; port := tx_port |}], inr st))
    by reflexivity.
  assert (H2 : iteration native cfg st (Datagram (b "0") addr fault1 fault2)
               = ([SendTo (b "1.0")
                     {| host := host addr; port := tx_port |}], inr st))
    by reflexivity.
  repeat split; try assumption;
    destruct H as [-> | ->]; rewrite ?H1, ?H2; reflexivity.
Qed.

(** The trace of the loop is the effects of its iterations, one after
    the other. *)
Lemma loop_iterations (st : state) (evs : list event) :
  fst (loop native cfg st evs)
  = List.concat (iterations native cfg st evs).
Proof.
  revert st. induction evs as [ | ev evs IH]; intros st; [reflexivity | ].
  cbn [loop iterations].
  destruct (iteration native cfg st ev) as [out [e | st']]; cbn [bind].
  - cbn [fst List.concat]. now rewrite app_nil_r.
  - specialize (IH st'). destruct (loop native cfg st' evs) as [out' r].
    cbn [fst List.concat] in *. now rewrite IH.
Qed.

(** Over command frames every event is an iteration, and the loop goes
    on waiting. *)
Lemma frames_keep_running (st : state) (evs : list event) :
  channel_ok (buttonFastTurn cfg) -> channel_ok (buttonSlow cfg) ->
  Forall is_frame evs ->
  List.length (iterations native cfg st evs) = List.length evs
  /\ exists st', snd (loop native cfg st evs) = inr st'.
Proof.
  intros Hft Hslow Hevs. revert st.
  induction Hevs as [ | ev evs Hev _ IH]; intros st;
    [split; [reflexivity | now exists st] | ].
  destruct ev as [payload addr fault1 fault2 | ]; [ | contradiction].
  cbn [is_frame] in Hev. cbn [iterations loop].
  rewrite (@iteration_frame F N native cfg st payload addr fault1 fault2 Hev).
  rewrite (@command_frame F N native cfg st payload fault1 fault2 Hev Hft Hslow).
  pose proof (showFaults_remembered (F:=F) st fault1 fault2) as Hs.
  destruct (Spec.update fault1 fault2 (remembered st)) as [current changed].
  destruct Hs as (_ & _ & st' & Hst').
  destruct (showFaults (F:=F) st fault1 fault2) as [out r].
  cbn [fst snd] in *. subst r. cbn [bind].
  destruct (IH st') as [Hlen [st'' Hst'']].
  destruct (loop native cfg st' evs) as [out' r']. cbn [snd] in *.
  split; [cbn [List.length]; now rewrite Hlen | now exists st''].
Qed.

(** C6: over a sequence of command frames with their fault-bit pairs,
    an iteration changes the LED mode exactly when the fault status
    (fault1 or fault2) differs from the status of the iteration before,
    and at no other iteration; the status before the first frame is the
    one the loop remembers in [ledBatteryMode].  The iterations are those
    of the loop: one for each frame, their effects in order are the
    loop's trace, after which the loop still waits; from the start of
    the script they are the run's trace after the setup calls. *)
Theorem led_changes_on_edges (st : state) (evs : list event) :
  channel_ok (buttonFastTurn cfg) -> channel_ok (buttonSlow cfg) ->
  Forall is_frame evs ->
  map (existsb led_call) (iterations native cfg st evs)
  = Spec.updates (remembered st) (map faults evs)
  /\ List.length (iterations native cfg st evs) = List.length evs
  /\ fst (loop native cfg st evs)
     = List.concat (iterations native cfg st evs)
  /\ (exists st', snd (loop native cfg st evs) = inr st')
  /\ (ledBatteryMode st = true ->
      fst (main native cfg evs)
      = setup ++ List.concat (iterations native cfg st evs)).
Proof.
  intros Hft Hslow Hevs.
  destruct (frames_keep_running st Hft Hslow Hevs) as [Hlen [st1 Hst1]].
  split; [ | repeat split].
  - clear Hlen st1 Hst1. revert st.
    induction Hevs as [ | ev evs Hev _ IH]; intros st; [reflexivity | ].
    destruct ev as [payload addr fault1 fault2 | ]; [ | contradiction].
    cbn [is_frame] in Hev.
    cbn [iterations map faults Spec.updates].
    rewrite (@iteration_frame F N native cfg st payload addr fault1 fault2 Hev).
    rewrite (@command_frame F N native cfg st payload fault1 fault2 Hev Hft Hslow).
    pose proof (showFaults_remembered (F:=F) st fault1 fault2) as Hs.
    destruct (Spec.update fault1 fault2 (remembered st)) as [current changed].
    destruct Hs as (Hcur & Hled & st' & Hst').
    rewrite Hst' in *. cbn [map existsb led_call orb].
    now rewrite Hled, IH, Hcur.
  - exact Hlen.
  - apply loop_iterations.
  - now exists st1.
  - intros Hmode. destruct st as [mode]. cbn [ledBatteryMode] in Hmode.
    subst mode. unfold main. rewrite <- loop_iterations.
    destruct (loop native cfg {| ledBatteryMode := true |} evs) as [out r].
    cbn [fst snd] in *. subst r. reflexivity.
Qed.

(** C2 (as the script has it): of the 8 values decoded from an 18-byte
    frame the first gives the steering input and the second the throttle
    input, each as (value - 1500) / 500, negated when its inversion flag
    is set.  These are the inputs of the drive computation: the frame
    sets the motors to [drive] of the steering from the first value and
    the throttle from the second, with the two buttons as read.
    [axisUpDown] and [axisLeftRight] are never read, so a command frame
    has the same effect whatever they are. *)
Theorem axes_from_first_two_channels (st : state) (data : list byte)
    (fault1 fault2 : bool) :
  List.length data = frame_size ->
  exists ppmFrame : list Z,
    unpack_xxHHHHHHHH native data = Some ppmFrame
    /\ read_leftRight cfg ppmFrame
       = ret (axis (axisLeftRightInverted cfg) (nth 0 ppmFrame 0%Z))
    /\ read_upDown cfg ppmFrame
       = ret (axis (axisUpDownInverted cfg) (nth 1 ppmFrame 0%Z))
    /\ (forall fastTurn slow : bool,
          buttonPushed cfg ppmFrame (buttonFastTurn cfg) = ret fastTurn ->
          buttonPushed cfg ppmFrame (buttonSlow cfg) = ret slow ->
          let steering :=
            axis (axisLeftRightInverted cfg) (nth 0 ppmFrame 0%Z) in
          let throttle :=
            axis (axisUpDownInverted cfg) (nth 1 ppmFrame 0%Z) in
          let d :=
            drive (slowFactor cfg) (maxPower cfg) steering throttle
              fastTurn slow in
          command native cfg st data fault1 fault2
          = (SetMotor1 (fst d) :: SetMotor2 (snd d)
               :: fst (showFaults (F:=F) st fault1 fault2),
             snd (showFaults (F:=F) st fault1 fault2)))
    /\ forall upDown leftRight : Z,
         command native (with_axes upDown leftRight cfg) st data fault1 fault2
         = command native cfg st data fault1 fault2.
Proof.
  intros Hlen. destruct (@unpack_frame native _ Hlen) as [Hun Hch].
  exists (channels native data). repeat split.
  - exact Hun.
  - exact (@read_leftRight_channel F N cfg _ Hch).
  - exact (@read_upDown_channel F N cfg _ Hch).
  - intros fastTurn slow Hft Hslow. cbv zeta.
    unfold command. rewrite Hun. cbn [or_raise]. rewrite bind_ret.
    rewrite (@read_leftRight_channel F N cfg _ Hch), bind_ret.
    rewrite (@read_upDown_channel F N cfg _ Hch), bind_ret.
    rewrite Hft, bind_ret, Hslow, bind_ret.
    change (channel (channels native data) 1)
      with (nth 0 (channels native data) 0%Z).
    change (channel (channels native data) 2)
      with (nth 1 (channels native data) 0%Z).
    match goal with |- context [drive ?a ?c ?d ?e ?f ?g] =>
      destruct (drive a c d e f g) as [m1 m2] end.
    rewrite !bind_emit. reflexivity.
Qed.

End LoopClaims.

(** ** Claims at concrete inputs *)

Lemma dead_zone_ends_float :
  Spec.inDeadZone (F:=float) (neg (lit 0.05))
  /\ Spec.inDeadZone (F:=float) (lit 0.05).
Proof. repeat split; vm_compute; reflexivity. Qed.

Lemma dead_zone_ends_Q :
  Spec.inDeadZone (F:=Q) (neg (lit 0.05))
  /\ Spec.inDeadZone (F:=Q) (lit 0.05).
Proof. repeat split; vm_compute; reflexivity. Qed.

(** The two ends of the dead zone, in binary64, fast-turn held and slow
    held: both sides get the straight command. *)
Lemma dead_zone_symmetric_witness :
  let t := lit (F:=float) 1.0 in
  let mp := maxPower (N:=float_Num) defaults in
  let sf := slowFactor (defaults (N:=float_Num)) in
  drive sf mp (neg (lit 0.05)) t true true
  = (Spec.straight t true mp sf, Spec.straight t true mp sf)
  /\ drive sf mp (lit 0.05) t true true
     = (Spec.straight t true mp sf, Spec.straight t true mp sf).
Proof.
  cbv zeta. split.
  - apply (@dead_zone_symmetric float float_Num float_NumOrder).
    split; vm_compute; reflexivity.
  - apply (@dead_zone_symmetric float float_Num float_NumOrder).
    split; vm_compute; reflexivity.
Defined.

(** C2, refuted as stated: in the frame with channel 1 at 1000 and
    channel 2 at 1500 the script's throttle input is 0, from the second
    value, and not -1, from the first. *)
Lemma throttle_not_from_first_channel :
  ~ (forall (data : list byte) (ppmFrame : list Z),
       unpack_xxHHHHHHHH LittleEndian data = Some ppmFrame ->
       read_upDown (N:=float_Num) defaults ppmFrame
       = ret (Spec.throttleInput ppmFrame)
       /\ read_leftRight (N:=float_Num) defaults ppmFrame
          = ret (Spec.steeringInput ppmFrame)).
Proof.
  intros H.
  destruct (H channel1_low _ eq_refl) as [H1 _].
  apply (f_equal (fun m : M float float =>
            match snd m with inr x => PrimFloat.ltb x 0 | inl _ => false end))
    in H1.
  vm_compute in H1. discriminate.
Qed.

Lemma axes_from_first_two_channels_witness :
  command (N:=float_Num) LittleEndian defaults {| ledBatteryMode := true |}
    channel2_low false false
  = ([SetMotor1 (next_down (lit 0.95)); SetMotor2 (next_down (lit 0.95))],
     inr {| ledBatteryMode := true |})
  /\ command (N:=float_Num) LittleEndian defaults
       {| ledBatteryMode := true |} channel1_low false false
     = ([SetMotor1 (neg (lit 0.0)); SetMotor2 (neg (lit 0.0))],
        inr {| ledBatteryMode := true |}).
Proof.
  split.
  - destruct (@axes_from_first_two_channels float float_Num LittleEndian
                defaults {| ledBatteryMode := true |} channel2_low
                false false eq_refl)
      as (ppmFrame & Hun & _ & _ & Hcommand & _).
    vm_compute in Hun. injection Hun as <-.
    rewrite (Hcommand false false eq_refl eq_refl).
    vm_compute. reflexivity.
  - destruct (@axes_from_first_two_channels float float_Num LittleEndian
                defaults {| ledBatteryMode := true |} channel1_low
                false false eq_refl)
      as (ppmFrame & Hun & _ & _ & Hcommand & _).
    vm_compute in Hun. injection Hun as <-.
    rewrite (Hcommand false false eq_refl eq_refl).
    vm_compute. reflexivity.
Defined.

(** The two sample frames on the motors: channel 2 low drives both
    sides forward at the power limit, channel 1 low drives neither. *)
Lemma sample_frames_on_motors :
  motors (N:=float_Num) LittleEndian defaults channel2_low
  = (next_down (lit 0.95), next_down (lit 0.95))
  /\ motors (N:=float_Num) LittleEndian defaults channel1_low
     = (neg (lit 0.0), neg (lit 0.0)).
Proof. split; vm_compute; reflexivity. Qed.

(** C3, refuted as stated: the two-byte datagram "xy" is not dropped
    with the loop going on; the iteration raises. *)
Lemma short_datagram_not_dropped :
  ~ (forall (st : state) (payload : list byte) (addr : address)
            (fault1 fault2 : bool),
       ~ is_query payload -> List.length payload <> frame_size ->
       iteration (N:=float_Num) LittleEndian defaults st
         (Datagram payload addr fault1 fault2) = ret st).
Proof.
  intros H.
  specialize (H {| ledBatteryMode := true |} (b "xy") sender false false).
  assert (Hq : ~ is_query (b "xy")) by (intros [E | E]; discriminate E).
  assert (Hl : List.length (b "xy") <> frame_size) by discriminate.
  specialize (H Hq Hl). vm_compute in H. discriminate.
Qed.

Lemma wrong_length_ends_loop_witness :
  let ev := Datagram (b "xy") sender false false in
  let rest := [Datagram channel2_low sender false false] in
  iteration (N:=float_Num) LittleEndian defaults
    {| ledBatteryMode := true |} ev = raise struct_error
  /\ main (N:=float_Num) LittleEndian defaults (ev :: rest)
     = (setup ++ cleanup, Died struct_error).
Proof.
  cbv zeta.
  assert (Hq : ~ is_query (b "xy")) by (intros [E | E]; discriminate E).
  assert (Hl : List.length (b "xy") <> frame_size) by discriminate.
  destruct (@wrong_length_ends_loop float float_Num LittleEndian defaults
              {| ledBatteryMode := true |} (b "xy") sender false false
              [Datagram channel2_low sender false false] Hq Hl)
    as (_ & Hit & _ & Hmain).
  split; [exact Hit | exact (Hmain [] [] _ eq_refl)].
Defined.

Lemma led_changes_on_edges_witness :
  let st := {| ledBatteryMode := true |} in
  let evs := [Datagram channel2_low sender false false;
              Datagram channel2_low sender true false;
              Datagram channel2_low sender false true;
              Datagram channel2_low sender false false] in
  map (existsb led_call)
    (iterations (N:=float_Num) LittleEndian defaults st evs)
  = [false; true; false; true]
  /\ filter led_call (fst (main (N:=float_Num) LittleEndian defaults evs))
     = filter led_call setup
       ++ [SetLedShowBattery false; SetLeds 1 0 1; SetLedShowBattery true].
Proof.
  cbv zeta.
  destruct (@led_changes_on_edges float float_Num LittleEndian defaults
              {| ledBatteryMode := true |}
              [Datagram channel2_low sender false false;
               Datagram channel2_low sender true false;
               Datagram channel2_low sender false true;
               Datagram channel2_low sender false false])
    as (Hflags & _ & _ & _ & Hmain).
  - unfold channel_ok. cbn. lia.
  - unfold channel_ok. cbn. lia.
  - repeat constructor.
  - split; [exact Hflags | ].
    rewrite (Hmain eq_refl). vm_compute. reflexivity.
Defined.

(** ** The control law in exact arithmetic *)

Section Exact.

Local Open Scope Q_scope.

Lemma Qabs_scale (k x y : Q) :
  Qabs x <= Qabs y -> Qabs (x * k) <= Qabs (y * k).
Proof.
  intros H. rewrite !Qabs_Qmult.
  apply Qmult_le_compat_r; [exact H | apply Qabs_nonneg].
Qed.

(** The left command grows in magnitude with the magnitude of the
    mixing factor. *)
Lemma left_scaled (t sf mp k1 k2 : Q) (slow : bool) :
  Qabs k1 <= Qabs k2 ->
  Qabs ((if slow then - t * k1 * sf else - t * k1) * mp)
  <= Qabs ((if slow then - t * k2 * sf else - t * k2) * mp).
Proof.
  intros H.
  assert (Ht : Qabs (- t * k1) <= Qabs (- t * k2)).
  { rewrite !Qabs_Qmult.
    rewrite (Qmult_comm _ (Qabs k1)), (Qmult_comm _ (Qabs k2)).
    apply Qmult_le_compat_r; [exact H | apply Qabs_nonneg]. }
  destruct slow; repeat apply Qabs_scale; exact Ht.
Qed.

(** C5 (as the script has it), in exact arithmetic: for attenuated
    steering [a1 < a2 < -0.05] the left command is no larger in magnitude
    at [a1] than at [a2] as long as [-0.5 <= a1]; from [-0.5] down the
    left motor reverses and the order turns round, the magnitude at [a1]
    being no smaller than at [a2] when [a2 <= -0.5]. *)
Theorem left_magnitude_by_steering (t sf mp s1 s2 : Q)
    (fastTurn slow : bool) :
  let a1 := Spec.attenuate fastTurn s1 in
  let a2 := Spec.attenuate fastTurn s2 in
  a1 < a2 -> a2 < - (0.05) ->
  (- (0.5) <= a1 ->
     Qabs (fst (drive sf mp s1 t fastTurn slow))
     <= Qabs (fst (drive sf mp s2 t fastTurn slow)))
  /\ (a2 <= - (0.5) ->
     Qabs (fst (drive sf mp s2 t fastTurn slow))
     <= Qabs (fst (drive sf mp s1 t fastTurn slow))).
Proof.
  intros a1 a2 H12 H2.
  rewrite !drive_cases. cbv zeta. fold a1 a2.
  assert (E1 : ltb a1 (neg (lit 0.05)) = true)
    by (apply Qltb_lt; cbn [neg lit Q_Num]; lra).
  assert (E2 : ltb a2 (neg (lit 0.05)) = true)
    by (apply Qltb_lt; cbn [neg lit Q_Num]; lra).
  rewrite E1, E2. cbn [fst]. cbn [neg lit mul add Q_Num].
  split; intros H; apply left_scaled.
  - rewrite !Qabs_pos by lra. lra.
  - rewrite !Qabs_neg by lra. lra.
Qed.

(** C7 (as the script has it): for positive voltages the power limit is
    [min(1.0, voltageOut / voltageIn)] in exact arithmetic.  In binary64,
    13.0 over 12.0 gives 1.0; 11.4 over 12.0 gives the number just above
    the binary64 0.95 (0.9500000000000001), and the script's own
    [voltageOut = 12.0 * 0.95] gives the number just below it
    (0.9499999999999998). *)
Theorem maxPower_is_min (vOut vIn : Q) :
  0 < vOut -> 0 < vIn ->
  maxPower_of vOut vIn == Spec.powerLimit vOut vIn
  /\ maxPower_of (N:=float_Num) (lit 13.0) (lit 12.0) = lit 1.0
  /\ maxPower_of (N:=float_Num) (lit 11.4) (lit 12.0) = next_up (lit 0.95)
  /\ maxPower (N:=float_Num) defaults = next_down (lit 0.95).
Proof.
  intros Ho Hi. split; [ | repeat split; vm_compute; reflexivity].
  unfold maxPower_of, Spec.powerLimit, Spec.min_of.
  cbn [ltb lit div Q_Num].
  assert (Hd : vOut / vIn * vIn == vOut) by (field; lra).
  destruct (Qltb vIn vOut) eqn:E1; destruct (Qltb (vOut / vIn) 1.0) eqn:E2;
    try reflexivity.
  - apply Qltb_lt in E1, E2. nra.
  - apply Qltb_ge in E1, E2. nra.
Qed.

End Exact.

(** C5, refuted as stated: with fast-turn held, throttle 1 and the
    default factors, steering -1.0 is below steering -0.6 and both are
    below -0.05, yet the left command is larger in magnitude at -1.0
    (0.95 against 0.19), in binary64 and in exact arithmetic alike. *)
Lemma left_magnitude_not_monotone :
  ~ (forall (t sf mp s1 s2 : float) (slow : bool),
       PrimFloat.ltb s1 s2 = true ->
       PrimFloat.ltb s2 (neg (lit 0.05)) = true ->
       PrimFloat.leb (abs (fst (drive sf mp s1 t true slow)))
                     (abs (fst (drive sf mp s2 t true slow))) = true)
  /\ ~ (forall (t sf mp s1 s2 : Q) (slow : bool),
          (s1 < s2)%Q -> (s2 < - (0.05))%Q ->
          (Qabs (fst (drive sf mp s1 t true slow))
           <= Qabs (fst (drive sf mp s2 t true slow)))%Q).
Proof.
  split; intros H.
  - specialize (H (lit 1.0) (lit 0.5) (lit 0.95) (lit (-1.0)) (lit (-0.6))
                  false).
    vm_compute in H. specialize (H eq_refl eq_refl). discriminate.
  - specialize (H 1.0 0.5 0.95 (-1.0) (-0.6) false)%Q.
    apply H; vm_compute; reflexivity.
Qed.

Lemma left_magnitude_by_steering_witness :
  (Qabs (fst (drive (N:=Q_Num) 0.5 0.95 (-0.4) 1.0 true false))
   <= Qabs (fst (drive (N:=Q_Num) 0.5 0.95 (-0.2) 1.0 true false)))%Q.
Proof.
  refine (proj1 (@left_magnitude_by_steering 1.0 0.5 0.95 (-0.4) (-0.2)
                   true false _ _) _)%Q;
    vm_compute; first [reflexivity | discriminate].
Defined.

(** C7, refuted as stated: 11.4 over 12.0 is not the binary64 0.95. *)
Lemma maxPower_not_exactly_095 :
  maxPower_of (N:=float_Num) (lit 11.4) (lit 12.0) <> lit 0.95.
Proof.
  apply (float_neq_by (fun x => PrimFloat.leb x (lit 0.95))).
  vm_compute. discriminate.
Qed.

Lemma maxPower_is_min_witness :
  (maxPower_of (N:=Q_Num) 11.4 12.0 == 0.95)%Q
  /\ maxPower_of (N:=float_Num) (lit 11.4) (lit 12.0) = next_up (lit 0.95).
Proof.
  destruct (@maxPower_is_min 11.4 12.0 eq_refl eq_refl)%Q
    as (Hq & _ & Hf & _).
  split; [ | exact Hf].
  rewrite Hq. vm_compute. reflexivity.
Defined.

(** ** More on frames *)

(** ** More on frames *)

(** X1: a datagram decodes exactly when it is 18 bytes long, and then to
    8 values, each an unsigned 16-bit integer; any other length is
    [struct.error]. *)
Theorem unpack_exactly_18 (bo : byteorder) (data : list byte) :
  (List.length data = frame_size ->
     exists ppmFrame : list Z,
       unpack_xxHHHHHHHH bo data = Some ppmFrame
       /\ List.length ppmFrame = 8%nat
       /\ Forall (fun v => 0 <= v < 65536)%Z ppmFrame)
  /\ (List.length data <> frame_size -> unpack_xxHHHHHHHH bo data = None).
Proof.
  split.
  - intros Hlen. destruct (@unpack_frame bo data Hlen) as [Hun Hch].
    exists (channels bo data). repeat split; try assumption.
    apply unpack_H_range.
  - apply unpack_other.
Qed.

Lemma byte_val_inj (x y : byte) : byte_val x = byte_val y -> x = y.
Proof.
  unfold byte_val. intros H. apply N2Z.inj in H.
  pose proof (Byte.of_to_N x) as Hx. rewrite H, Byte.of_to_N in Hx.
  congruence.
Qed.

Lemma u16_inj (bo : byteorder) (a0 a1 c0 c1 : byte) :
  u16 bo a0 a1 = u16 bo c0 c1 -> a0 = c0 /\ a1 = c1.
Proof.
  pose proof (byte_val_range a0). pose proof (byte_val_range a1).
  pose proof (byte_val_range c0). pose proof (byte_val_range c1).
  destruct bo; cbn [u16]; intros E; split; apply byte_val_inj; lia.
Qed.

Lemma unpack_H_inj (bo : byteorder) (n : nat) :
  forall buf1 buf2,
    List.length buf1 = (2 * n)%nat -> List.length buf2 = (2 * n)%nat ->
    unpack_H bo n buf1 = unpack_H bo n buf2 -> buf1 = buf2.
Proof.
  induction n as [ | n IH]; intros buf1 buf2 H1 H2 E.
  - destruct buf1, buf2; try discriminate; reflexivity.
  - destruct buf1 as [ | a0 [ | a1 r1]]; cbn [List.length] in H1; try lia.
    destruct buf2 as [ | c0 [ | c1 r2]]; cbn [List.length] in H2; try lia.
    cbn [unpack_H] in E. injection E as E0 Er.
    destruct (u16_inj bo _ _ _ _ E0) as [-> ->].
    f_equal. f_equal. apply IH; [lia | lia | exact Er].
Qed.

(** X2: the decoder reads bytes 2 to 17 and nothing else: two 18-byte
    datagrams decode to the same channel values exactly when they agree
    from byte 2 on, whatever their two pad bytes. *)
Theorem unpack_reads_bytes_2_to_17 (bo : byteorder) (d1 d2 : list byte) :
  List.length d1 = frame_size -> List.length d2 = frame_size ->
  (unpack_xxHHHHHHHH bo d1 = unpack_xxHHHHHHHH bo d2
   <-> skipn 2 d1 = skipn 2 d2).
Proof.
  intros H1 H2.
  destruct (@unpack_frame bo d1 H1) as [-> _].
  destruct (@unpack_frame bo d2 H2) as [-> _].
  unfold channels. split.
  - intros E. injection E as E.
    apply (@unpack_H_inj bo 8); try exact E;
      rewrite length_skipn; [rewrite H1 | rewrite H2]; reflexivity.
  - now intros ->.
Qed.

Section Buttons.

Context {F : Type} {N : Num F}.
Variable native : byteorder.
Variable cfg : settings F.

Lemma getitem_range (t : list Z) (i : Z) :
  let n := Z.of_nat (List.length t) in
  ((i < - n \/ n <= i)%Z -> getitem t i = None)
  /\ ((- n <= i < 0)%Z -> getitem t i = getitem t (i + n))
  /\ ((0 <= i < n)%Z -> getitem t i = Some (nth (Z.to_nat i) t 0%Z)).
Proof.
  intros n. unfold getitem. fold n. repeat split; intros Hi.
  - replace ((0 <=? i) && (i <? n))%Z with false
      by (symmetry; apply andb_false_iff; lia).
    replace ((- n <=? i) && (i <? 0))%Z with false
      by (symmetry; apply andb_false_iff; lia).
    reflexivity.
  - replace ((0 <=? i) && (i <? n))%Z with false
      by (symmetry; apply andb_false_iff; lia).
    replace ((- n <=? i) && (i <? 0))%Z with true
      by (symmetry; apply andb_true_iff; lia).
    replace ((0 <=? i + n) && (i + n <? n))%Z with true
      by (symmetry; apply andb_true_iff; lia).
    now rewrite Z.add_comm.
  - replace ((0 <=? i) && (i <? n))%Z with true
      by (symmetry; apply andb_true_iff; lia).
    apply nth_error_nth'. lia.
Qed.

(** X3: on a frame of 8 values [buttonPushed(c)] tests channel [c] for
    [c] from 1 to 8; for [c] from -7 to 0 the index [c - 1] is negative
    and counts from the end, so it tests channel [c + 8] (0 is channel
    8); any other [c] raises [IndexError]. *)
Theorem buttonPushed_channel_numbers (ppmFrame : list Z) (c : Z) :
  List.length ppmFrame = 8%nat ->
  ((c < -7 \/ 8 < c)%Z -> buttonPushed cfg ppmFrame c = raise IndexError)
  /\ ((-7 <= c <= 0)%Z ->
      buttonPushed cfg ppmFrame c = buttonPushed cfg ppmFrame (c + 8))
  /\ ((1 <= c <= 8)%Z ->
      buttonPushed cfg ppmFrame c
      = ret (if (channel ppmFrame c >? switchOnMin cfg)%Z
             then true else false)).
Proof.
  intros Hlen.
  destruct (getitem_range ppmFrame (c - 1)) as (Hout & Hneg & _).
  cbv zeta in *. rewrite Hlen in *. change (Z.of_nat 8) with 8%Z in *.
  repeat split; intros Hc.
  - unfold buttonPushed. rewrite Hout by lia. reflexivity.
  - unfold buttonPushed. rewrite Hneg by lia.
    now replace (c + 8 - 1)%Z with (c - 1 + 8)%Z by lia.
  - now apply buttonPushed_channel.
Qed.

Lemma buttonPushed_result (ppmFrame : list Z) (c : Z) :
  List.length ppmFrame = 8%nat ->
  (indexable c -> exists pushed, buttonPushed cfg ppmFrame c = ret pushed)
  /\ (~ indexable c -> buttonPushed cfg ppmFrame c = raise IndexError).
Proof.
  intros Hlen.
  destruct (getitem_range ppmFrame (c - 1)) as (Hout & Hneg & Hin).
  destruct (getitem_range ppmFrame (c - 1 + 8)) as (_ & _ & Hin').
  cbv zeta in *. rewrite Hlen in *. change (Z.of_nat 8) with 8%Z in *.
  unfold indexable, buttonPushed. split; intros Hc.
  - destruct (Z_le_gt_dec c 0).
    + rewrite Hneg, Hin' by lia. cbn [or_raise]. rewrite bind_ret. eauto.
    + rewrite Hin by lia. cbn [or_raise]. rewrite bind_ret. eauto.
  - rewrite Hout by lia. reflexivity.
Qed.

(** X4: on an 18-byte frame the loop body sets both motors, motor 1
    first, and then shows the faults, as long as both button channel
    numbers are between -7 and 8; otherwise it raises [IndexError] before
    any effect. *)
Theorem command_needs_indexable_buttons (st : state) (data : list byte)
    (fault1 fault2 : bool) :
  List.length data = frame_size ->
  (indexable (buttonFastTurn cfg) /\ indexable (buttonSlow cfg) ->
     exists m1 m2 : F,
       command native cfg st data fault1 fault2
       = (SetMotor1 m1 :: SetMotor2 m2
            :: fst (showFaults (F:=F) st fault1 fault2),
          snd (showFaults (F:=F) st fault1 fault2)))
  /\ (~ (indexable (buttonFastTurn cfg) /\ indexable (buttonSlow cfg)) ->
      command native cfg st data fault1 fault2 = raise IndexError).
Proof.
  intros Hlen.
  destruct (@unpack_frame native data Hlen) as [Hun Hch].
  destruct (@buttonPushed_result (channels native data) (buttonFastTurn cfg) Hch)
    as [Hft Hft'].
  destruct (@buttonPushed_result (channels native data) (buttonSlow cfg) Hch)
    as [Hsl Hsl'].
  unfold command. rewrite Hun. cbn [or_raise]. rewrite bind_ret.
  rewrite (@read_leftRight_channel F N cfg _ Hch), bind_ret.
  rewrite (@read_upDown_channel F N cfg _ Hch), bind_ret.
  split.
  - intros [H1 H2]. destruct (Hft H1) as [ft ->]. destruct (Hsl H2) as [sl ->].
    rewrite !bind_ret.
    match goal with |- context [drive ?a ?c ?d ?e ?f ?g] =>
      destruct (drive a c d e f g) as [m1 m2] end.
    exists m1, m2. rewrite !bind_emit. reflexivity.
  - intros Hno.
    destruct (Z_le_gt_dec (-7) (buttonFastTurn cfg)) as [Ha | Ha];
      [destruct (Z_le_gt_dec (buttonFastTurn cfg) 8) as [Hb | Hb] | ].
    + destruct (Hft (conj Ha Hb)) as [ft ->]. rewrite bind_ret.
      rewrite Hsl'; [reflexivity | ].
      intros H2. apply Hno. split; [split | ]; assumption.
    + rewrite Hft' by (unfold indexable; lia). reflexivity.
    + rewrite Hft' by (unfold indexable; lia). reflexivity.
Qed.

End Buttons.

Section LoopInvariants.

Context {F : Type} {N : Num F}.
Variable native : byteorder.
Variable cfg : settings F.

(** What a command frame does is decided by the datagram alone, up to
    the fault display. *)
Lemma command_shape (data : list byte) :
  (exists e : exn, forall st fault1 fault2,
      command native cfg st data fault1 fault2 = raise e)
  \/ (exists m1 m2 : F, forall st fault1 fault2,
        command native cfg st data fault1 fault2
        = (SetMotor1 m1 :: SetMotor2 m2
             :: fst (showFaults (F:=F) st fault1 fault2),
           snd (showFaults (F:=F) st fault1 fault2))).
Proof.
  assert (H : exists r : exn + F * F, forall st fault1 fault2,
             command native cfg st data fault1 fault2
             = match r with
               | inl e => raise e
               | inr m =>
                   (SetMotor1 (fst m) :: SetMotor2 (snd m)
                      :: fst (showFaults (F:=F) st fault1 fault2),
                    snd (showFaults (F:=F) st fault1 fault2))
               end).
  { unfold command, read_leftRight, read_upDown, buttonPushed.
    destruct (unpack_xxHHHHHHHH native data) as [ppmFrame | ];
      [ | exists (inl struct_error); reflexivity].
    destruct (getitem ppmFrame 0) as [v0 | ] eqn:E0;
      [ | exists (inl IndexError); intros; cbn [or_raise];
          rewrite bind_ret, E0; reflexivity].
    destruct (getitem ppmFrame 1) as [v1 | ] eqn:E1;
      [ | exists (inl IndexError); intros; cbn [or_raise];
          rewrite bind_ret, E0; cbn [or_raise]; rewrite !bind_ret, E1;
          reflexivity].
    destruct (getitem ppmFrame (buttonFastTurn cfg - 1)) as [v2 | ] eqn:E2;
      [ | exists (inl IndexError); intros; cbn [or_raise];
          rewrite bind_ret, E0; cbn [or_raise]; rewrite !bind_ret, E1;
          cbn [or_raise]; rewrite !bind_ret, E2; reflexivity].
    destruct (getitem ppmFrame (buttonSlow cfg - 1)) as [v3 | ] eqn:E3;
      [ | exists (inl IndexError); intros; cbn [or_raise];
          rewrite bind_ret, E0; cbn [or_raise]; rewrite !bind_ret, E1;
          cbn [or_raise]; rewrite !bind_ret, E2; cbn [or_raise];
          rewrite !bind_ret, E3; reflexivity].
    exists (inr (drive (slowFactor cfg) (maxPower cfg)
                   (axis (axisLeftRightInverted cfg) v0)
                   (axis (axisUpDownInverted cfg) v1)
                   (if (v2 >? switchOnMin cfg)%Z then true else false)
                   (if (v3 >? switchOnMin cfg)%Z then true else false))).
    intros. cbn [or_raise].
    rewrite bind_ret, E0; cbn [or_raise]; rewrite !bind_ret, E1;
      cbn [or_raise]; rewrite !bind_ret, E2; cbn [or_raise];
      rewrite !bind_ret, E3; cbn [or_raise]; rewrite !bind_ret.
    unfold axis.
    match goal with |- context [drive ?a ?c ?d ?e ?f ?g] =>
      destruct (drive a c d e f g) as [m1 m2] end.
    rewrite !bind_emit. reflexivity. }
  destruct H as [[e | [m1 m2]] H]; [left; exists e | right; exists m1, m2];
    exact H.
Qed.

Lemma showFaults_cases (st : state) (fault1 fault2 : bool) :
  exists (k : nat) (st' : state),
    showFaults (F:=F) st fault1 fault2
    = (led_cycle (ledBatteryMode st) k, inr st')
    /\ (k <= 1)%nat
    /\ ledBatteryMode st'
       = Nat.iter k negb (ledBatteryMode st).
Proof.
  destruct st as [[ | ]]; unfold showFaults; cbn [ledBatteryMode];
    destruct (fault1 || fault2); cbn [negb].
  - exists 1%nat, {| ledBatteryMode := false |}. repeat split; auto.
  - exists 0%nat, {| ledBatteryMode := true |}. repeat split; auto.
  - exists 0%nat, {| ledBatteryMode := false |}. repeat split; auto.
  - exists 1%nat, {| ledBatteryMode := true |}. repeat split; auto.
Qed.

(** The three ways an iteration can go. *)
Lemma iteration_cases (st : state) (ev : event) :
  (exists e : exn, iteration native cfg st ev = raise e)
  \/ (exists payload dest,
        iteration native cfg st ev = ([SendTo payload dest], inr st)
        /\ reply (SendTo (F:=F) payload dest))
  \/ (exists (m1 m2 : F) (fault1 fault2 : bool),
        iteration native cfg st ev
        = (SetMotor1 m1 :: SetMotor2 m2
             :: fst (showFaults (F:=F) st fault1 fault2),
           snd (showFaults (F:=F) st fault1 fault2))).
Proof.
  destruct ev as [payload addr fault1 fault2 | ];
    [ | left; exists KeyboardInterrupt; reflexivity].
  cbn [iteration].
  destruct (bytes_eqb (firstn bufsize payload) (b "?")).
  { right; left. eexists _, _. split; [reflexivity | ].
    cbn. split; [reflexivity | now left]. }
  destruct (bytes_eqb (firstn bufsize payload) (b "0")).
  { right; left. eexists _, _. split; [reflexivity | ].
    cbn. split; [reflexivity | now right]. }
  destruct (command_shape (firstn bufsize payload)) as [[e He] | (m1 & m2 & Hm)].
  - left. exists e. apply He.
  - right; right. exists m1, m2, fault1, fault2. apply Hm.
Qed.

Lemma led_cycle_app (battery : bool) (k n : nat) :
  led_cycle (F:=F) battery k ++ led_cycle (Nat.iter k negb battery) n
  = led_cycle battery (k + n).
Proof.
  revert battery. induction k as [ | k IH]; intros battery; [reflexivity | ].
  rewrite Nat.iter_succ_r. cbn [Nat.add led_cycle].
  destruct battery; cbn [app negb]; rewrite IH; reflexivity.
Qed.

Lemma led_cycle_led (battery : bool) (n : nat) :
  filter led_call (led_cycle (F:=F) battery n) = led_cycle battery n.
Proof.
  revert battery. induction n as [ | n IH]; intros battery; [reflexivity | ].
  destruct battery; cbn [led_cycle filter led_call]; now rewrite IH.
Qed.

(** X5: whatever arrives, the LED calls of the loop alternate: out of
    battery mode ([SetLedShowBattery(False)], [SetLeds(1,0,1)]), back
    into it ([SetLedShowBattery(True)]), and so on from the mode the loop
    is in; [ledBatteryMode] ends as that many changes leave it. *)
Theorem led_calls_alternate (st : state) (evs : list event) :
  exists n : nat,
    filter led_call (fst (loop native cfg st evs))
    = led_cycle (ledBatteryMode st) n
    /\ forall st', snd (loop native cfg st evs) = inr st' ->
         ledBatteryMode st' = Nat.iter n negb (ledBatteryMode st).
Proof.
  revert st. induction evs as [ | ev evs IH]; intros st.
  - exists 0%nat. split; [reflexivity | ]. cbn. intros st' E. congruence.
  - cbn [loop].
    destruct (iteration_cases st ev)
      as [[e ->] | [(payload & dest & -> & _) | (m1 & m2 & f1 & f2 & ->)]].
    + exists 0%nat. split; [reflexivity | ]. cbn. discriminate.
    + destruct (IH st) as (n & Hn & Hst). exists n.
      cbn [bind]. destruct (loop native cfg st evs) as [out r].
      cbn [fst snd] in *. split; [ | exact Hst].
      cbn [app filter led_call]. exact Hn.
    + destruct (showFaults_cases st f1 f2) as (k & st1 & -> & _ & Hk).
      cbn [fst snd bind].
      destruct (IH st1) as (n & Hn & Hst). exists (k + n)%nat.
      destruct (loop native cfg st1 evs) as [out r].
      cbn [fst snd] in *. split.
      * cbn [app filter led_call]. rewrite filter_app, Hn, led_cycle_led, Hk.
        apply led_cycle_app.
      * intros st' E. rewrite (Hst st' E), Hk.
        rewrite Nat.add_comm. symmetry. apply Nat.iter_add.
Qed.

Lemma loop_effects (st : state) (evs : list event) :
  Forall (fun e => loop_effect e = true /\ reply e)
    (fst (loop native cfg st evs)).
Proof.
  revert st. induction evs as [ | ev evs IH]; intros st; [constructor | ].
  cbn [loop].
  destruct (iteration_cases st ev)
    as [[e ->] | [(payload & dest & -> & Hr) | (m1 & m2 & f1 & f2 & ->)]].
  - constructor.
  - cbn [bind]. specialize (IH st).
    destruct (loop native cfg st evs) as [out r]. cbn [fst app] in *.
    constructor; [split; [reflexivity | exact Hr] | exact IH].
  - destruct (showFaults_cases st f1 f2) as (k & st1 & -> & Hk1 & _).
    cbn [fst snd bind]. specialize (IH st1).
    destruct (loop native cfg st1 evs) as [out r]. cbn [fst app] in *.
    repeat (constructor; [split; [reflexivity | exact I] | ]).
    apply Forall_app. split; [ | exact IH].
    destruct k as [ | [ | k]]; [constructor | | lia].
    destruct (ledBatteryMode st); cbn [led_cycle];
      repeat (constructor; [split; [reflexivity | exact I] | ]); constructor.
Qed.

(** X6: the trace of every run is the setup calls, then effects of the
    loop only (a reply to port 12000 with one of the two fixed strings, a
    motor level, an LED change), then what the end of the run adds:
    nothing while the loop waits, the [finally] calls ([MotorsOff],
    [SetCommsFailsafe(False)], LEDs off) once it has ended, after the
    shutdown message when it ended by CTRL+C. *)
Theorem run_shape (evs : list event) :
  exists out : list (effect F),
    fst (main native cfg evs)
    = setup ++ out ++ ending (snd (main native cfg evs))
    /\ Forall (fun e => loop_effect e = true /\ reply e) out.
Proof.
  pose proof (loop_effects {| ledBatteryMode := true |} evs) as H.
  unfold main.
  destruct (loop native cfg {| ledBatteryMode := true |} evs)
    as [out [[ | | ] | st]]; cbn [fst snd ending] in *; exists out;
    (split; [ | exact H]); rewrite ?app_nil_r; reflexivity.
Qed.

(** With button channels it can index, a command frame does not raise. *)
Lemma command_runs (st : state) (data : list byte) (fault1 fault2 : bool) :
  List.length data = frame_size ->
  indexable (buttonFastTurn cfg) -> indexable (buttonSlow cfg) ->
  exists out st', command native cfg st data fault1 fault2 = (out, inr st').
Proof.
  intros Hlen Hft Hslow.
  destruct (@unpack_frame native data Hlen) as [Hun Hch].
  destruct (@buttonPushed_result F cfg (channels native data)
              (buttonFastTurn cfg) Hch) as [Hb1 _].
  destruct (@buttonPushed_result F cfg (channels native data)
              (buttonSlow cfg) Hch) as [Hb2 _].
  destruct (Hb1 Hft) as [fastTurn E1]. destruct (Hb2 Hslow) as [slow E2].
  unfold command. rewrite Hun. cbn [or_raise]. rewrite bind_ret.
  rewrite (@read_leftRight_channel F N cfg _ Hch), bind_ret.
  rewrite (@read_upDown_channel F N cfg _ Hch), bind_ret.
  rewrite E1, bind_ret, E2, bind_ret.
  match goal with |- context [drive ?a ?c ?d ?e ?f ?g] =>
    destruct (drive a c d e f g) as [m1 m2] end.
  rewrite !bind_emit.
  destruct (showFaults_cases st fault1 fault2) as (k & st' & -> & _).
  cbn [fst snd]. eauto.
Qed.

Lemma iteration_fatal (st : state) (ev : event) :
  fatal ev = true ->
  iteration native cfg st ev
  = raise match ev with
          | CtrlC => KeyboardInterrupt
          | Datagram _ _ _ _ => struct_error
          end.
Proof.
  destruct ev as [payload addr fault1 fault2 | ]; [ | reflexivity].
  cbn [fatal iteration]. rewrite !andb_true_iff, !negb_true_iff.
  intros [[-> ->] Hlen]. apply command_other.
  now apply Nat.eqb_neq.
Qed.

Lemma iteration_survives (st : state) (ev : event) :
  indexable (buttonFastTurn cfg) -> indexable (buttonSlow cfg) ->
  fatal ev = false ->
  exists out st', iteration native cfg st ev = (out, inr st').
Proof.
  intros Hft Hslow.
  destruct ev as [payload addr fault1 fault2 | ]; [ | discriminate].
  cbn [fatal iteration].
  destruct (bytes_eqb (firstn bufsize payload) (b "?"));
    [intros _; rewrite bind_emit; cbn [fst snd ret]; eauto | ].
  destruct (bytes_eqb (firstn bufsize payload) (b "0"));
    [intros _; rewrite bind_emit; cbn [fst snd ret]; eauto | ].
  destruct (Nat.eqb_spec (List.length (firstn bufsize payload)) frame_size)
    as [Hlen | Hlen]; [ | intros H; cbn in H; discriminate H].
  intros _. now apply command_runs.
Qed.

Lemma loop_survives (st : state) (evs : list event) :
  indexable (buttonFastTurn cfg) -> indexable (buttonSlow cfg) ->
  existsb fatal evs = false ->
  exists out st', loop native cfg st evs = (out, inr st').
Proof.
  intros Hft Hslow. revert st.
  induction evs as [ | ev evs IH]; intros st Hevs;
    [exists [], st; reflexivity | ].
  cbn [existsb] in Hevs. apply orb_false_iff in Hevs. destruct Hevs as [Hev Hevs].
  destruct (iteration_survives st ev Hft Hslow Hev) as (out & st' & E).
  destruct (IH st' Hevs) as (out' & st'' & E').
  cbn [loop]. rewrite E. cbn [bind]. rewrite E'. eauto.
Qed.

Lemma loop_ends (st : state) (evs : list event) :
  indexable (buttonFastTurn cfg) -> indexable (buttonSlow cfg) ->
  existsb fatal evs = true ->
  exists out e, loop native cfg st evs = (out, inl e).
Proof.
  intros Hft Hslow. revert st.
  induction evs as [ | ev evs IH]; intros st Hevs; [discriminate | ].
  cbn [existsb] in Hevs. cbn [loop].
  destruct (fatal ev) eqn:Hev.
  - rewrite (iteration_fatal st ev Hev). cbn. eauto.
  - destruct (iteration_survives st ev Hft Hslow Hev) as (out & st' & ->).
    cbn [orb] in Hevs. destruct (IH st' Hevs) as (out' & e & E').
    cbn [bind]. rewrite E'. eauto.
Qed.

(** X7: with button channels the frame can be indexed with, a run ends
    exactly when CTRL+C arrives or a datagram that is neither of the two
    requests nor 18 bytes long: nothing else stops the loop.  It ends at
    the first such event, as [Exited] after CTRL+C and with
    [struct.error] after such a datagram, and what arrives later changes
    nothing. *)
Theorem run_ends_at_first_fatal_event (evs : list event) :
  indexable (buttonFastTurn cfg) -> indexable (buttonSlow cfg) ->
  terminated (snd (main native cfg evs)) = existsb fatal evs
  /\ forall (pre : list event) (ev : event) (rest : list event),
       evs = pre ++ ev :: rest ->
       existsb fatal pre = false -> fatal ev = true ->
       main native cfg evs = main native cfg (pre ++ [ev])
       /\ snd (main native cfg evs)
          = match ev with
            | CtrlC => Exited
            | Datagram _ _ _ _ => Died struct_error
            end.
Proof.
  intros Hft Hslow. split.
  - unfold main. destruct (existsb fatal evs) eqn:Hevs.
    + destruct (loop_ends {| ledBatteryMode := true |} evs Hft Hslow Hevs)
        as (out & e & ->).
      destruct e; reflexivity.
    + destruct (loop_survives {| ledBatteryMode := true |} evs Hft Hslow Hevs)
        as (out & st' & ->).
      reflexivity.
  - intros pre ev rest -> Hpre Hev.
    destruct (loop_survives {| ledBatteryMode := true |} pre Hft Hslow Hpre)
      as (out & st' & Hloop).
    unfold main. rewrite !loop_app, Hloop. cbn [bind loop].
    rewrite !(iteration_fatal st' ev Hev). cbn [bind raise].
    destruct ev; split; reflexivity.
Qed.

(** X8: the motor calls of a command frame, and whether it raises,
    depend on the datagram alone: not on the fault registers and not on
    the LED mode. *)
Theorem faults_leave_motors_alone (data : list byte) (st st' : state)
    (fault1 fault2 fault1' fault2' : bool) :
  filter motor_call (fst (command native cfg st data fault1 fault2))
  = filter motor_call (fst (command native cfg st' data fault1' fault2'))
  /\ (forall e, snd (command native cfg st data fault1 fault2) = inl e
               <-> snd (command native cfg st' data fault1' fault2') = inl e).
Proof.
  assert (Hled : forall s f1 f2,
             filter motor_call (fst (showFaults (F:=F) s f1 f2)) = []
             /\ forall e, snd (showFaults (F:=F) s f1 f2) <> inl e).
  { intros s f1 f2. destruct (showFaults_cases s f1 f2) as (k & s1 & -> & Hk & _).
    cbn [fst snd]. split; [ | discriminate].
    destruct k as [ | [ | k]]; [reflexivity | | lia].
    destruct (ledBatteryMode s); reflexivity. }
  destruct (command_shape data) as [[e He] | (m1 & m2 & Hm)].
  - rewrite !He. split; [reflexivity | tauto].
  - rewrite !Hm. cbn [fst snd filter motor_call].
    rewrite (proj1 (Hled st fault1 fault2)), (proj1 (Hled st' fault1' fault2')).
    split; [reflexivity | ].
    intros e. split; intros H; exfalso; eapply (proj2 (Hled _ _ _)); exact H.
Qed.

(** X9: two frames that agree on channels 1 and 2 and on the two
    button channels have the same effect; the other channels are not
    used. *)
Theorem other_channels_unused (st : state) (d1 d2 : list byte)
    (fault1 fault2 : bool) :
  List.length d1 = frame_size -> List.length d2 = frame_size ->
  channel_ok (buttonFastTurn cfg) -> channel_ok (buttonSlow cfg) ->
  (forall c : Z,
      c = 1%Z \/ c = 2%Z \/ c = buttonFastTurn cfg \/ c = buttonSlow cfg ->
      channel (channels native d1) c = channel (channels native d2) c) ->
  command native cfg st d1 fault1 fault2
  = command native cfg st d2 fault1 fault2.
Proof.
  intros H1 H2 Hft Hsl Hc.
  rewrite (@command_frame F N native cfg st d1 fault1 fault2 H1 Hft Hsl).
  rewrite (@command_frame F N native cfg st d2 fault1 fault2 H2 Hft Hsl).
  unfold motors.
  rewrite (Hc 1%Z), (Hc 2%Z), (Hc (buttonFastTurn cfg)), (Hc (buttonSlow cfg))
    by tauto.
  reflexivity.
Qed.

End LoopInvariants.

Section ExactMore.

Local Open Scope Q_scope.

Lemma Qabs_le_1_mult (x y : Q) : Qabs x <= 1 -> Qabs y <= 1 -> Qabs (x * y) <= 1.
Proof.
  intros Hx Hy. rewrite Qabs_Qmult.
  setoid_replace 1 with (1 * 1) by ring.
  apply Qmult_le_compat_nonneg; split; auto using Qabs_nonneg.
Qed.

Lemma Qabs_le_scale (x mp : Q) : Qabs x <= 1 -> 0 <= mp -> Qabs (x * mp) <= mp.
Proof.
  intros Hx Hmp. rewrite Qabs_Qmult, (Qabs_pos mp) by exact Hmp.
  setoid_replace mp with (1 * mp) at 2 by ring.
  apply Qmult_le_compat_r; assumption.
Qed.

Lemma Qabs_opp_le (x : Q) : Qabs x <= 1 -> Qabs (- x) <= 1.
Proof. now rewrite Qabs_opp. Qed.

Lemma Qabs_le_1 (x : Q) : -(1) <= x <= 1 -> Qabs x <= 1.
Proof. intros H. apply Qabs_Qle_condition. exact H. Qed.

Lemma straight_bound (t sf mp : Q) (slow : bool) :
  Qabs t <= 1 -> Qabs sf <= 1 -> 0 <= mp ->
  Qabs (Spec.straight t slow mp sf) <= mp.
Proof.
  intros Ht Hsf Hmp. unfold Spec.straight. cbn [neg mul Q_Num].
  apply Qabs_le_scale; [ | exact Hmp].
  destruct slow; [apply Qabs_le_1_mult | ]; auto using Qabs_opp_le.
Qed.

Lemma scaled_bound (t k sf mp : Q) (slow : bool) :
  Qabs t <= 1 -> Qabs k <= 1 -> Qabs sf <= 1 -> 0 <= mp ->
  Qabs ((if slow then - t * k * sf else - t * k) * mp) <= mp.
Proof.
  intros Ht Hk Hsf Hmp. apply Qabs_le_scale; [ | exact Hmp].
  destruct slow; repeat apply Qabs_le_1_mult; auto using Qabs_opp_le.
Qed.

(** The drive computation on axis positions between -1 and 1. *)
Lemma drive_within_limit (sf mp s t : Q) (fastTurn slow : bool) :
  -(1) <= s <= 1 -> -(1) <= t <= 1 -> -(1) <= sf <= 1 -> 0 <= mp ->
  Qabs (fst (drive sf mp s t fastTurn slow)) <= mp
  /\ Qabs (snd (drive sf mp s t fastTurn slow)) <= mp.
Proof.
  intros Hs Ht Hsf Hmp.
  apply Qabs_le_1 in Ht, Hsf.
  assert (Ha : -(1) <= Spec.attenuate fastTurn s <= 1).
  { unfold Spec.attenuate. destruct fastTurn; cbn [mul lit Q_Num]; lra. }
  rewrite drive_cases. cbv zeta.
  set (a := Spec.attenuate fastTurn s) in *.
  destruct (ltb a (neg (lit 0.05))) eqn:E1;
    [ | destruct (ltb (lit 0.05) a) eqn:E2 ]; cbn [fst snd]; split.
  - apply Qltb_lt in E1. cbn [neg lit mul add Q_Num] in *.
    apply scaled_bound; auto. apply Qabs_le_1. lra.
  - apply straight_bound; assumption.
  - apply straight_bound; assumption.
  - apply Qltb_lt in E2. cbn [neg lit mul sub Q_Num] in *.
    apply scaled_bound; auto. apply Qabs_le_1. lra.
  - apply straight_bound; assumption.
  - apply straight_bound; assumption.
Qed.

Lemma maxPower_range (vOut vIn : Q) :
  0 < vOut -> 0 < vIn -> 0 < maxPower_of vOut vIn <= 1.
Proof.
  intros Ho Hi. unfold maxPower_of. cbn [ltb lit div Q_Num].
  assert (Hd : vOut / vIn * vIn == vOut) by (field; lra).
  destruct (Qltb vIn vOut) eqn:E; [lra | ].
  apply Qltb_ge in E. 
  assert (0 < vOut / vIn) by (apply Qlt_shift_div_l; lra).
  split; [assumption | ]. apply Qle_shift_div_r; lra.
Qed.

Lemma axis_range (inverted : bool) (v : Z) :
  (1000 <= v <= 2000)%Z -> -(1) <= axis (N:=Q_Num) inverted v <= 1.
Proof.
  intros [Hlo Hhi]. rewrite Zle_Qle in Hlo, Hhi.
  unfold axis. cbn [of_int neg add sub div Q_Num].
  change (inject_Z 1500) with 1500. change (inject_Z 500) with 500.
  change (inject_Z 1000) with 1000 in Hlo.
  change (inject_Z 2000) with 2000 in Hhi.
  destruct inverted; split;
    first [apply Qle_shift_div_l | apply Qle_shift_div_r]; lra.
Qed.

(** X10: in exact arithmetic, with both axis channels between 1000 and
    2000, a slow factor between -1 and 1 and positive voltages, both
    motor levels are at most [maxPower] in magnitude, and [maxPower] is
    at most 1. *)
Theorem motors_within_limit (native : byteorder) (cfg : settings Q)
    (data : list byte) :
  let ppmFrame := channels native data in
  (1000 <= channel ppmFrame 1 <= 2000)%Z ->
  (1000 <= channel ppmFrame 2 <= 2000)%Z ->
  -(1) <= slowFactor cfg <= 1 -> 0 < voltageOut cfg -> 0 < voltageIn cfg ->
  Qabs (fst (motors native cfg data)) <= maxPower cfg
  /\ Qabs (snd (motors native cfg data)) <= maxPower cfg
  /\ maxPower cfg <= 1.
Proof.
  intros ppmFrame H1 H2 Hsf Ho Hi.
  destruct (@maxPower_range _ _ Ho Hi) as [Hmp0 Hmp1]. fold (maxPower cfg) in *.
  unfold motors. fold ppmFrame.
  pose proof (@drive_within_limit (slowFactor cfg) (maxPower cfg)
                (axis (axisLeftRightInverted cfg) (channel ppmFrame 1))
                (axis (axisUpDownInverted cfg) (channel ppmFrame 2))) as H.
  repeat split; try apply H; auto using axis_range; lra.
Qed.

(** X11: in exact arithmetic the drive computation is symmetric:
    negating the steering swaps the two motor levels. *)
Theorem drive_mirror (sf mp s t : Q) (fastTurn slow : bool) :
  fst (drive sf mp (- s) t fastTurn slow)
  == snd (drive sf mp s t fastTurn slow)
  /\ snd (drive sf mp (- s) t fastTurn slow)
     == fst (drive sf mp s t fastTurn slow).
Proof.
  rewrite !drive_cases. cbv zeta.
  assert (Ha : Spec.attenuate fastTurn (- s) == - Spec.attenuate fastTurn s).
  { unfold Spec.attenuate. destruct fastTurn; cbn [mul lit Q_Num]; ring. }
  set (a := Spec.attenuate fastTurn s) in *.
  set (a' := Spec.attenuate fastTurn (- s)) in *.
  unfold Spec.straight.
  destruct (ltb a (neg (lit 0.05))) eqn:E1; destruct (ltb (lit 0.05) a) eqn:E2;
    destruct (ltb a' (neg (lit 0.05))) eqn:E3;
    destruct (ltb (lit 0.05) a') eqn:E4;
    rewrite ?Qltb_lt, ?Qltb_ge in *;
    cbn [neg lit mul add sub Q_Num fst snd] in *;
    try (exfalso; lra);
    destruct slow; split; rewrite ?Ha; ring.
Qed.

(** In exact arithmetic a throttle of 0 gives motor levels of 0. *)
Lemma no_throttle_no_drive (sf mp s : Q) (fastTurn slow : bool) :
  fst (drive sf mp s 0 fastTurn slow) == 0
  /\ snd (drive sf mp s 0 fastTurn slow) == 0.
Proof.
  rewrite drive_cases. cbv zeta. unfold Spec.straight.
  destruct (ltb _ _); [ | destruct (ltb _ _)]; destruct slow;
    cbn [neg lit mul add sub Q_Num fst snd]; split; ring.
Qed.

End ExactMore.

(** ** Exhaustive checks in binary64 *)

Lemma Zrange_In (n : nat) :
  forall lo v, (lo <= v < lo + Z.of_nat n)%Z -> In v (Zrange lo n).
Proof.
  induction n as [ | n IH]; intros lo v Hv; [lia | ].
  cbn [Zrange]. destruct (Z.eq_dec lo v) as [E | E]; [now left | right].
  apply IH. lia.
Qed.

Lemma Zrange_has (lo k v : Z) :
  (lo <= v < lo + k)%Z -> In v (Zrange lo (Z.to_nat k)).
Proof.
  intros Hv. apply Zrange_In. rewrite Z2Nat.id; lia.
Qed.

Lemma maxPower_default :
  maxPower (N:=float_Num) defaults = 0x1.e666666666665p-1%float.
Proof. vm_compute. reflexivity. Qed.

Lemma drive_drive64 (s t : float) (fastTurn slow : bool) :
  drive (N:=float_Num) (slowFactor defaults) (maxPower defaults)
    s t fastTurn slow
  = drive64 s t fastTurn slow.
Proof.
  rewrite maxPower_default. cbn [slowFactor defaults].
  unfold drive, drive64.
  destruct float_literals as (-> & -> & _ & -> & -> & _).
  reflexivity.
Qed.

Lemma axis_axis64 (v : Z) : axis (N:=float_Num) false v = axis64 v.
Proof.
  unfold axis, axis64. cbn [of_int sub div float_Num].
  replace (float_of_Z 1500) with 0x1.77p+10%float
    by (vm_compute; reflexivity).
  replace (float_of_Z 500) with 0x1.f4p+8%float
    by (vm_compute; reflexivity).
  reflexivity.
Qed.

Lemma forallb_pairs {A : Type} (p : A -> A -> bool) (l : list A) :
  forallb (fun s => forallb (p s) l) l = true ->
  forall s t, In s l -> In t l -> p s t = true.
Proof.
  intros H s t Hs Ht. rewrite forallb_forall in H.
  specialize (H s Hs). rewrite forallb_forall in H. now apply H.
Qed.

(** With the throttle channel at 1500 the motors rest at every 16-bit
    value of the steering channel and every state of the buttons: all of
    them are evaluated. *)
Lemma rest_everywhere (v : Z) :
  In v (Zrange 0 (Z.to_nat 65536)) ->
  all_buttons at_rest (axis64 v) (axis64 1500) = true.
Proof.
  revert v. apply forallb_forall. vm_compute. reflexivity.
Qed.

(** With both axis channels from 1000 to 2000 the motor levels are
    within the default power limit at every state of the buttons: all of
    them are evaluated. *)
Lemma limit_everywhere (s t : float) :
  In s axes64 -> In t axes64 ->
  all_buttons (within 0x1.e666666666665p-1) s t = true.
Proof.
  revert s t. apply forallb_pairs. vm_compute. reflexivity.
Qed.

Lemma axes64_has (v : Z) : (1000 <= v <= 2000)%Z -> In (axis64 v) axes64.
Proof.
  intros Hv. unfold axes64. apply in_map, Zrange_has. lia.
Qed.

Lemma channel_range (bo : byteorder) (data : list byte) (c : Z) :
  List.length data = frame_size -> (1 <= c <= 8)%Z ->
  (0 <= channel (channels bo data) c < 65536)%Z.
Proof.
  intros Hlen Hc. destruct (@unpack_frame bo data Hlen) as [_ Hch].
  pose proof (unpack_H_range bo 8 (skipn 2 data)) as Hr.
  fold (channels bo data) in Hr. rewrite Forall_forall in Hr.
  apply Hr. unfold channel. apply nth_In. lia.
Qed.

(** The motors of a frame under the default settings, through [drive64]. *)
Lemma motors_default (native : byteorder) (data : list byte) :
  exists fastTurn slow : bool,
    motors (N:=float_Num) native defaults data
    = drive64 (axis64 (channel (channels native data) 1))
        (axis64 (channel (channels native data) 2)) fastTurn slow.
Proof.
  unfold motors. cbn [axisLeftRightInverted axisUpDownInverted defaults].
  rewrite drive_drive64, !axis_axis64. eauto.
Qed.

Lemma all_buttons_at (p : float * float -> bool) (s t : float)
    (fastTurn slow : bool) :
  all_buttons p s t = true -> p (drive64 s t fastTurn slow) = true.
Proof.
  unfold all_buttons. rewrite !andb_true_iff.
  intros [[[H00 H01] H10] H11]. destruct fastTurn, slow; assumption.
Qed.

(** X12: in binary64 and under the default settings, a frame whose
    channel 2 is 1500 sets both motors to zero, whatever its other
    channels: the steering alone never drives a motor. *)
Theorem centred_throttle_stops (native : byteorder) (data : list byte) :
  List.length data = frame_size ->
  channel (channels native data) 2 = 1500%Z ->
  at_rest (motors (N:=float_Num) native defaults data) = true.
Proof.
  intros Hlen H2.
  destruct (motors_default native data) as (fastTurn & slow & ->).
  rewrite H2. apply all_buttons_at, rest_everywhere, Zrange_has.
  pose proof (@channel_range native data 1 Hlen) as Hc. lia.
Qed.

(** X13: in binary64 and under the default settings, a frame whose
    channels 1 and 2 are between 1000 and 2000 sets both motors to levels
    of magnitude at most [maxPower], whatever the buttons. *)
Theorem motors_within_limit_binary64 (native : byteorder)
    (data : list byte) :
  (1000 <= channel (channels native data) 1 <= 2000)%Z ->
  (1000 <= channel (channels native data) 2 <= 2000)%Z ->
  within (maxPower (N:=float_Num) defaults)
    (motors (N:=float_Num) native defaults data) = true.
Proof.
  intros H1 H2. rewrite maxPower_default.
  destruct (motors_default native data) as (fastTurn & slow & ->).
  apply all_buttons_at, limit_everywhere; now apply axes64_has.
Qed.

(** ** The start of the script *)

Section StartFacts.

Context {F : Type} {N : Num F}.
Variable native : byteorder.
Variable cfg : settings F.

(** The loop of lines 70-77 ends in its first round. *)
Lemma ensure_failsafe_once (n : nat) (reads : nat -> bool) (failsafe : bool) :
  ensure_failsafe (F:=F) (S n) reads failsafe
  = if reads O then ([SetCommsFailsafe true], inr true)
    else ([SetCommsFailsafe true;
           Print "Board %02X failed to report in failsafe mode!' % (TB.i2cAddress)"],
          inl SystemExit).
Proof. cbn [ensure_failsafe]. destruct (reads O); reflexivity. Qed.

Lemma main_requests_no_failsafe (evs : list event) :
  filter failsafe_request (map Effect (fst (main native cfg evs))) = [].
Proof.
  pose proof (loop_effects native cfg {| ledBatteryMode := true |} evs) as H.
  assert (Hout : forall out : list (effect F),
             Forall (fun e => loop_effect e = true /\ reply e) out ->
             filter failsafe_request (map Effect out) = []).
  { induction 1 as [ | e out [He _] _ IH]; [reflexivity | ].
    cbn [map filter]. rewrite IH.
    destruct e as [ | | | | | | [ | ] | ]; try reflexivity; discriminate. }
  unfold main.
  destruct (loop native cfg {| ledBatteryMode := true |} evs)
    as [out [[ | | ] | st]]; cbn [fst] in *;
    rewrite ?map_app, ?filter_app, (Hout out H); reflexivity.
Qed.

(** X14: the script reaches its loop exactly when the board was found
    and the first read-back of the failsafe is on; only then is a motor
    ever commanded.  The failsafe is requested once if the board was
    found and never otherwise: the loop over [range(5)] does not try
    again, and later read-backs make no difference. *)
Theorem loop_only_behind_failsafe (foundChip : bool) (reads : nat -> bool)
    (evs : list event) :
  let r := script native cfg foundChip reads evs in
  ((exists s, snd r = inr s) <-> foundChip = true /\ reads O = true)
  /\ (existsb motor_command (fst r) = true ->
      foundChip = true /\ reads O = true)
  /\ List.length (filter failsafe_request (fst r))
     = (if foundChip then 1 else 0)%nat
  /\ r = script native cfg foundChip (fun _ => reads O) evs.
Proof.
  cbv zeta. unfold script. rewrite !ensure_failsafe_once.
  destruct foundChip; cbn [negb fst snd].
  - destruct (reads O) eqn:E.
    + pose proof (main_requests_no_failsafe evs) as H.
      destruct (main native cfg evs) as [trace s]. cbn [fst snd] in *.
      repeat split; eauto.
      cbn [app map filter failsafe_request List.length]. now rewrite H.
    + cbn. split; [split | split; [ | split]].
      * intros [s Hs]. discriminate.
      * intros [_ Hs]. discriminate.
      * discriminate.
      * reflexivity.
      * reflexivity.
  - cbn. split; [split | split; [ | split]].
    + intros [s Hs]. discriminate.
    + intros [Hs _]. discriminate.
    + discriminate.
    + reflexivity.
    + reflexivity.
Qed.

End StartFacts.

(** ** The further properties at concrete inputs *)

Lemma unpack_reads_bytes_2_to_17_witness :
  unpack_xxHHHHHHHH LittleEndian channel1_low
  = unpack_xxHHHHHHHH LittleEndian (x01 :: xff :: skipn 2 channel1_low).
Proof.
  apply (proj2 (@unpack_reads_bytes_2_to_17 LittleEndian channel1_low
                  (x01 :: xff :: skipn 2 channel1_low) eq_refl eq_refl)).
  reflexivity.
Defined.

Lemma buttonPushed_channel_numbers_witness :
  let ppmFrame := [1000; 1500; 2000; 1000; 1500; 1500; 1500; 1800]%Z in
  buttonPushed (defaults (N:=float_Num)) ppmFrame 0
  = buttonPushed (defaults (N:=float_Num)) ppmFrame 8.
Proof.
  cbv zeta.
  refine (proj1 (proj2 (@buttonPushed_channel_numbers float
                          (defaults (N:=float_Num))
                          [1000; 1500; 2000; 1000; 1500; 1500; 1500; 1800]%Z
                          0 eq_refl)) _).
  lia.
Defined.

Lemma command_needs_indexable_buttons_witness :
  command LittleEndian first_assigned {| ledBatteryMode := true |}
    channel1_low false false
  = raise IndexError.
Proof.
  apply (proj2 (@command_needs_indexable_buttons float float_Num
                  LittleEndian first_assigned {| ledBatteryMode := true |}
                  channel1_low false false eq_refl)).
  intros [[_ H] _]. cbn in H. lia.
Defined.

Lemma run_ends_at_first_fatal_event_witness :
  let pre := [Datagram channel2_low sender false true;
              Datagram (b "?") sender false false] in
  let rest := [Datagram channel2_low sender false false] in
  terminated (snd (main (N:=float_Num) LittleEndian defaults
                     (pre ++ CtrlC :: rest))) = true
  /\ main (N:=float_Num) LittleEndian defaults (pre ++ CtrlC :: rest)
     = main (N:=float_Num) LittleEndian defaults (pre ++ [CtrlC])
  /\ snd (main (N:=float_Num) LittleEndian defaults (pre ++ CtrlC :: rest))
     = Exited.
Proof.
  cbv zeta.
  destruct (@run_ends_at_first_fatal_event float float_Num LittleEndian
              defaults
              ([Datagram channel2_low sender false true;
                Datagram (b "?") sender false false]
               ++ CtrlC :: [Datagram channel2_low sender false false]))
    as [Hend Hfirst].
  - unfold indexable. cbn. lia.
  - unfold indexable. cbn. lia.
  - split; [rewrite Hend; reflexivity | ].
    exact (Hfirst _ CtrlC _ eq_refl eq_refl eq_refl).
Defined.

Lemma other_channels_unused_witness :
  let other :=
    frame_of [1000; 1500; 1000; 1000; 0; 65535; 1; 2]%Z in
  command (N:=float_Num) LittleEndian defaults {| ledBatteryMode := true |}
    channel1_low false false
  = command (N:=float_Num) LittleEndian defaults {| ledBatteryMode := true |}
      other false false.
Proof.
  cbv zeta.
  apply (@other_channels_unused float float_Num LittleEndian defaults
           {| ledBatteryMode := true |} channel1_low
           (frame_of [1000; 1500; 1000; 1000; 0; 65535; 1; 2]%Z)
           false false eq_refl eq_refl).
  - unfold channel_ok. cbn. lia.
  - unfold channel_ok. cbn. lia.
  - intros c [-> | [-> | [-> | ->]]]; reflexivity.
Defined.

Lemma motors_within_limit_witness :
  (Qabs (fst (motors (N:=Q_Num) LittleEndian defaults channel2_low))
   <= maxPower (N:=Q_Num) defaults)%Q
  /\ (Qabs (snd (motors (N:=Q_Num) LittleEndian defaults channel2_low))
      <= maxPower (N:=Q_Num) defaults)%Q
  /\ (maxPower (N:=Q_Num) defaults <= 1)%Q.
Proof.
  apply (@motors_within_limit LittleEndian (defaults (N:=Q_Num))
           channel2_low).
  - vm_compute. split; discriminate.
  - vm_compute. split; discriminate.
  - vm_compute. split; discriminate.
  - vm_compute. reflexivity.
  - vm_compute. reflexivity.
Defined.

Lemma centred_throttle_stops_witness :
  at_rest (motors (N:=float_Num) LittleEndian defaults channel1_low) = true.
Proof.
  apply (@centred_throttle_stops LittleEndian channel1_low);
    reflexivity.
Defined.

Lemma motors_within_limit_binary64_witness :
  within (maxPower (N:=float_Num) defaults)
    (motors (N:=float_Num) LittleEndian defaults channel2_low) = true.
Proof.
  apply (@motors_within_limit_binary64 LittleEndian channel2_low);
    vm_compute; split; discriminate.
Defined.
